(** * Technical indicators of chat-trade (src/indicators/calc.py, src/app.py)

    Shallow embedding of the indicator engines.  The Python code works on
    pandas Series of IEEE doubles; here a double is an element of [num]:
    a finite value (an exact rational, [Qc]), plus or minus infinity, or NaN
    (pandas' "missing").  Arithmetic is exact on finite values and follows
    the IEEE rules for infinities and NaN; rounding and the sign of zero are
    not modelled.  The pandas operations the code calls ([rolling().mean()],
    [rolling().std()], [ewm().mean()], [diff], [clip], [where], [cumsum],
    [shift]) are written out from their documented behaviour, including the
    parameter checks by which pandas raises [ValueError]. *)

From Stdlib Require Import ZArith Lia List Bool.
From Stdlib Require Import QArith Qcanon Qround.
From Stdlib Require String.
Import ListNotations.
Import String.StringSyntax.

Open Scope Qc_scope.

(** ** Doubles *)

Inductive num : Type :=
| Fin (q : Qc)
| PInf
| NInf
| NaN.

Definition Qc_leb (x y : Qc) : bool :=
  match Qccompare x y with Gt => false | _ => true end.
Definition Qc_ltb (x y : Qc) : bool :=
  match Qccompare x y with Lt => true | _ => false end.
Definition Qc_eqb (x y : Qc) : bool :=
  match Qccompare x y with Eq => true | _ => false end.

(** [x == x] is false exactly on NaN: pandas' test for an observation. *)
Definition is_obs (x : num) : bool :=
  match x with NaN => false | _ => true end.

Definition nneg (x : num) : num :=
  match x with
  | Fin a => Fin (- a)
  | PInf => NInf
  | NInf => PInf
  | NaN => NaN
  end.

Definition nadd (x y : num) : num :=
  match x, y with
  | NaN, _ | _, NaN => NaN
  | Fin a, Fin b => Fin (a + b)
  | PInf, NInf | NInf, PInf => NaN
  | PInf, _ | _, PInf => PInf
  | NInf, _ | _, NInf => NInf
  end.

Definition nsub (x y : num) : num := nadd x (nneg y).

(** Sign of a non-NaN double: [Lt], [Eq] (zero) or [Gt]. *)
Definition nsign (x : num) : comparison :=
  match x with
  | Fin a => Qccompare a 0
  | PInf => Gt
  | NInf => Lt
  | NaN => Eq
  end.

Definition inf_of_sign (c : comparison) : num :=
  match c with Gt => PInf | Lt => NInf | Eq => NaN end.

Definition sign_mul (c d : comparison) : comparison :=
  match c, d with
  | Eq, _ | _, Eq => Eq
  | Gt, Gt | Lt, Lt => Gt
  | _, _ => Lt
  end.

Definition nmul (x y : num) : num :=
  match x, y with
  | NaN, _ | _, NaN => NaN
  | Fin a, Fin b => Fin (a * b)
  | _, _ => inf_of_sign (sign_mul (nsign x) (nsign y))
  end.

Definition ndiv (x y : num) : num :=
  match x, y with
  | NaN, _ | _, NaN => NaN
  | Fin a, Fin b =>
      if Qc_eqb b 0 then inf_of_sign (Qccompare a 0) else Fin (a / b)
  | Fin _, _ => Fin 0
  | _, Fin b =>
      if Qc_eqb b 0 then x else inf_of_sign (sign_mul (nsign x) (nsign y))
  | _, _ => NaN
  end.

(** IEEE comparisons: every comparison with NaN is false. *)
Definition nle (x y : num) : bool :=
  match x, y with
  | NaN, _ | _, NaN => false
  | Fin a, Fin b => Qc_leb a b
  | NInf, _ | _, PInf => true
  | _, _ => false
  end.

Definition nlt (x y : num) : bool :=
  match x, y with
  | NaN, _ | _, NaN => false
  | Fin a, Fin b => Qc_ltb a b
  | NInf, NInf | PInf, _ => false
  | NInf, _ | _, PInf => true
  | _, NInf => false
  end.

Definition ngt (x y : num) : bool := nlt y x.
Definition nge (x y : num) : bool := nle y x.

Definition neqb (x y : num) : bool :=
  match x, y with
  | Fin a, Fin b => Qc_eqb a b
  | PInf, PInf | NInf, NInf => true
  | _, _ => false
  end.

Definition Qc_of_nat (n : nat) : Qc := Q2Qc (inject_Z (Z.of_nat n)).
Definition Qc_of_Z (z : Z) : Qc := Q2Qc (inject_Z z).

(** ** Errors: pandas raises [ValueError] on a bad window, span or com. *)

Inductive error := ValueError.

Definition result (A : Type) := (error + A)%type.

Definition bind {A B} (r : result A) (k : A -> result B) : result B :=
  match r with inl e => inl e | inr a => k a end.

Notation "x <- r ;; k" := (bind r (fun x => k))
  (at level 61, r at next level, right associativity).

Definition is_err {A} (r : result A) : bool :=
  match r with inl _ => true | inr _ => false end.

(** ** Series

    A pandas Series is a list of doubles; every Series of one computation
    shares the index of its input, so the element-wise operators of pandas
    ([a - b], [a / b], [a > b], [a & b]) are [map2] over positions. *)

Fixpoint map2 {A B C} (f : A -> B -> C) (l1 : list A) (l2 : list B) : list C :=
  match l1, l2 with
  | a :: l1', b :: l2' => f a b :: map2 f l1' l2'
  | _, _ => []
  end.

(** [iloc[i]] of a position that exists; [NaN] stands in elsewhere. *)
Definition iloc (s : list num) (i : nat) : num := nth i s NaN.

(** [s.iloc[i] = v]: pandas replaces the element in place. *)
Fixpoint set_nth {A} (l : list A) (i : nat) (v : A) : list A :=
  match l, i with
  | [], _ => []
  | _ :: t, O => v :: t
  | h :: t, S j => h :: set_nth t j v
  end.

(** [series.diff()]: the first element has no predecessor. *)
Definition diff (s : list num) : list num :=
  match s with
  | [] => []
  | _ :: t => NaN :: map2 nsub t s
  end.

(** [clip(lower=0)] and [clip(upper=0)]; NaN is kept. *)
Definition clip_lower0 (x : num) : num :=
  if nlt x (Fin 0) then Fin 0 else x.
Definition clip_upper0 (x : num) : num :=
  if ngt x (Fin 0) then Fin 0 else x.

(** [s.where(cond, 0)]: keep the element where [cond] holds, else 0. *)
Definition where0 (cond : num -> bool) (x : num) : num :=
  if cond x then x else Fin 0.

(** [s.shift(1)]. *)
Definition shift1 (s : list num) : list num :=
  match s with
  | [] => []
  | _ => NaN :: removelast s
  end.

(** [s.cumsum()] (skipna): a NaN element gives NaN and is left out of the
    running sum. *)
Fixpoint cumsum_from (acc : num) (s : list num) : list num :=
  match s with
  | [] => []
  | x :: t =>
      if is_obs x then nadd acc x :: cumsum_from (nadd acc x) t
      else NaN :: cumsum_from acc t
  end.

Definition cumsum (s : list num) : list num := cumsum_from (Fin 0) s.

Definition nsum (xs : list num) : num := fold_left nadd xs (Fin 0).

(** ** Rolling windows: [s.rolling(window=w)]

    The window ending at position [i] holds positions [i-w+1 .. i] (fewer at
    the start); [min_periods] defaults to [w]. *)

Definition win (s : list num) (w i : nat) : list num :=
  firstn (Nat.min w (S i)) (skipn (S i - w) s).

Definition rolling_apply (f : list num -> num) (w : nat) (s : list num)
  : list num :=
  map (fun i => f (win s w i)) (seq 0 (length s)).

(** [roll_mean]: mean of the observations when there are at least
    [min_periods] of them and at least one. *)
Definition roll_mean_at (minp : nat) (xs : list num) : num :=
  let obs := filter is_obs xs in
  let nobs := length obs in
  if (minp <=? nobs)%nat && (0 <? nobs)%nat
  then ndiv (nsum obs) (Fin (Qc_of_nat nobs))
  else NaN.

(** [roll_var] with [ddof = 1]: sum of squared deviations over [nobs - 1];
    pandas needs [nobs > ddof] and clamps a negative result to 0. *)
Definition roll_var_at (minp : nat) (xs : list num) : num :=
  let obs := filter is_obs xs in
  let nobs := length obs in
  if (minp <=? nobs)%nat && (1 <? nobs)%nat then
    let mean := ndiv (nsum obs) (Fin (Qc_of_nat nobs)) in
    let ssd := nsum (map (fun x => nmul (nsub x mean) (nsub x mean)) obs) in
    let v := ndiv ssd (Fin (Qc_of_nat (nobs - 1))) in
    if nlt v (Fin 0) then Fin 0 else v
  else NaN.

(** [rolling(window=w)] raises [ValueError] for a negative [w]. *)
Definition rolling_check (w : Z) : result nat :=
  if (w <? 0)%Z then inl ValueError else inr (Z.to_nat w).

Definition rolling_mean (w : Z) (s : list num) : result (list num) :=
  n <- rolling_check w ;; inr (rolling_apply (roll_mean_at n) n s).

(** [np.sqrt] applied to a double, given the square root [sqrt] of a
    non-negative rational. *)
Definition nsqrt (sqrt : Qc -> Qc) (x : num) : num :=
  match x with
  | Fin a => if Qc_ltb a 0 then NaN else Fin (sqrt a)
  | PInf => PInf
  | _ => NaN
  end.

Definition rolling_std (sqrt : Qc -> Qc) (w : Z) (s : list num)
  : result (list num) :=
  n <- rolling_check w ;;
  inr (map (nsqrt sqrt) (rolling_apply (roll_var_at n) n s)).

(** ** Exponential windows: [s.ewm(..., adjust=False).mean()]

    The state of pandas' [ewm] loop: the running value [weighted], the weight
    [old_wt] of the old value and the number of observations.  With
    [adjust=False] and [ignore_na=False] (the defaults the code uses), the new
    weight is [alpha] and [old_wt] is reset to 1 after every observation;
    [min_periods] is 1. *)

Definition ewm_state : Type := (num * Qc * nat)%type.

Definition ewm_out (st : ewm_state) : num :=
  let '(weighted, _, nobs) := st in
  if (1 <=? nobs)%nat then weighted else NaN.

Definition ewm_step (alpha : Qc) (st : ewm_state) (cur : num) : ewm_state :=
  let '(weighted, old_wt, nobs) := st in
  let obs := is_obs cur in
  let nobs' := if obs then S nobs else nobs in
  if is_obs weighted then
    let old_wt' := old_wt * (1 - alpha) in
    if obs then
      let weighted' :=
        if negb (neqb weighted cur)
        then ndiv (nadd (nmul (Fin old_wt') weighted) (nmul (Fin alpha) cur))
                  (Fin (old_wt' + alpha))
        else weighted in
      (weighted', 1, nobs')
    else (weighted, old_wt', nobs')
  else if obs then (cur, old_wt, nobs') else (weighted, old_wt, nobs').

Fixpoint ewm_loop (alpha : Qc) (st : ewm_state) (s : list num) : list num :=
  match s with
  | [] => []
  | cur :: t =>
      let st' := ewm_step alpha st cur in ewm_out st' :: ewm_loop alpha st' t
  end.

Definition ewm_mean (alpha : Qc) (s : list num) : list num :=
  match s with
  | [] => []
  | x0 :: t =>
      let st0 := (x0, 1, if is_obs x0 then 1%nat else 0%nat) in
      ewm_out st0 :: ewm_loop alpha st0 t
  end.

(** [ewm(com=c)]: [alpha = 1 / (1 + c)]; [ValueError] when [c < 0]. *)
Definition ewm_com (com : Z) (s : list num) : result (list num) :=
  if (com <? 0)%Z then inl ValueError
  else inr (ewm_mean (1 / (1 + Qc_of_Z com)) s).

(** [ewm(span=n)]: [com = (n - 1) / 2]; [ValueError] when [n < 1]. *)
Definition ewm_span (span : Z) (s : list num) : result (list num) :=
  if (span <? 1)%Z then inl ValueError
  else
    let com := (Qc_of_Z span - 1) / Qc_of_Z 2 in
    inr (ewm_mean (1 / (1 + com)) s).

(** ** The engines of src/indicators/calc.py *)

Module Calc.

Definition calculate_sma (data : list num) (window : Z) : result (list num) :=
  rolling_mean window data.

Definition calculate_ema (data : list num) (window : Z) : result (list num) :=
  ewm_span window data.

(** [100.0 - (100.0 / (1.0 + rs))]. *)
Definition rsi_of_rs (rs : num) : num :=
  nsub (Fin (Qc_of_Z 100)) (ndiv (Fin (Qc_of_Z 100)) (nadd (Fin 1) rs)).

(** The smoothed gains and losses [roll_up], [roll_down] of
    [calculate_rsi]. *)
Definition rsi_averages (data : list num) (window : Z)
  : result (list num * list num) :=
  let delta := diff data in
  let up := map clip_lower0 delta in
  let down := map (nmul (Fin (Qc_of_Z (-1)))) (map clip_upper0 delta) in
  roll_up <- ewm_com (window - 1) up ;;
  roll_down <- ewm_com (window - 1) down ;;
  inr (roll_up, roll_down).

Definition calculate_rsi (data : list num) (window : Z) : result (list num) :=
  avgs <- rsi_averages data window ;;
  let '(roll_up, roll_down) := avgs in
  let rs := map2 ndiv roll_up roll_down in
  inr (map rsi_of_rs rs).

Definition calculate_macd (data : list num)
  (fast_period slow_period signal_period : Z)
  : result (list num * list num * list num) :=
  fast_ema <- ewm_span fast_period data ;;
  slow_ema <- ewm_span slow_period data ;;
  let macd_line := map2 nsub fast_ema slow_ema in
  signal_line <- ewm_span signal_period macd_line ;;
  let macd_histogram := map2 nsub macd_line signal_line in
  inr (macd_line, signal_line, macd_histogram).

(** Returns (upper, middle, lower); [sqrt] is the square root of [np.sqrt]. *)
Definition calculate_bollinger_bands (sqrt : Qc -> Qc) (data : list num)
  (window : Z) (num_std : num) : result (list num * list num * list num) :=
  middle_band <- rolling_mean window data ;;
  std_dev <- rolling_std sqrt window data ;;
  let upper_band := map2 nadd middle_band (map (fun s => nmul s num_std) std_dev) in
  let lower_band := map2 nsub middle_band (map (fun s => nmul s num_std) std_dev) in
  inr (upper_band, middle_band, lower_band).

End Calc.

(** A row of the price DataFrame (the columns the engines read). *)
Record bar : Type := mkBar {
  Open : num; High : num; Low : num; Close : num; Volume : num
}.

Definition closes (df : list bar) : list num := map Close df.

Module CalcVwap.

Definition typical_price (b : bar) : num :=
  ndiv (nadd (nadd (High b) (Low b)) (Close b)) (Fin (Qc_of_Z 3)).

Definition calculate_vwap (df : list bar) : list num :=
  map2 ndiv (cumsum (map (fun b => nmul (typical_price b) (Volume b)) df))
            (cumsum (map Volume df)).

(** The two tests of the loop body at position [i]. *)
Definition buy_cross (sma vwap : list num) (i : nat) : bool :=
  nle (iloc sma (i - 1)) (iloc vwap (i - 1)) && ngt (iloc sma i) (iloc vwap i).

Definition sell_cross (sma vwap : list num) (i : nat) : bool :=
  nge (iloc sma (i - 1)) (iloc vwap (i - 1)) && nlt (iloc sma i) (iloc vwap i).

(** One pass of the [for i in range(1, len(df))] loop. *)
Definition cross_body (sma vwap close : list num)
  (acc : list num * list num) (i : nat) : list num * list num :=
  let '(buy_signals, sell_signals) := acc in
  let buy_signals :=
    if buy_cross sma vwap i
    then set_nth buy_signals i (iloc close i) else buy_signals in
  let sell_signals :=
    if sell_cross sma vwap i
    then set_nth sell_signals i (iloc close i) else sell_signals in
  (buy_signals, sell_signals).

(** The crossover loop over two series and the prices it records; both
    signal Series start all NaN ([pd.Series(index=df.index, dtype=float)]). *)
Definition detect_crossovers (sma vwap close : list num) : list num * list num :=
  let n := length close in
  fold_left (cross_body sma vwap close) (seq 1 (n - 1))
    (repeat NaN n, repeat NaN n).

Definition calculate_vwap_crossover (df : list bar) (sma_period : Z)
  : result (list num * list num) :=
  sma <- Calc.calculate_sma (closes df) sma_period ;;
  let vwap := calculate_vwap df in
  inr (detect_crossovers sma vwap (closes df)).

End CalcVwap.

(** ** Python values and exceptions of src/app.py

    The exceptions [fetch_stock_data] and [update_chart] raise or catch, and
    the JSON values [response.json()] returns, with the Python operations the
    code applies to them: [k in v], [v[k]], [v[0]], [bool(v)] and
    [v.keys()]. *)

Module Py.

Local Open Scope string_scope.

Inductive exn : Type :=
| PandasError (e : error)            (* a pandas [ValueError]: bad window, span or com *)
| ValueError (msg : String.string)
| RequestException (msg : String.string)
| JSONDecodeError
| KeyError (key : String.string)
| IndexError
| TypeError
| AttributeError
| UnboundLocalError (name : String.string).

Definition pres (A : Type) := (exn + A)%type.

Definition pbind {A B} (r : pres A) (k : A -> pres B) : pres B :=
  match r with inl e => inl e | inr a => k a end.

Definition of_pandas {A} (r : result A) : pres A :=
  match r with inl e => inl (PandasError e) | inr a => inr a end.

(** A decoded JSON document; an object keeps its members in order. *)
#[warnings="-register-all"]
Inductive json : Type :=
| JNull
| JBool (b : bool)
| JNum (q : Qc)
| JStr (s : String.string)
| JArr (l : list json)
| JObj (kv : list (String.string * json)).

(** [json.loads] keeps the last member of a repeated key. *)
Fixpoint assoc_last (k : String.string) (kv : list (String.string * json))
  : option json :=
  match kv with
  | [] => None
  | (k', v) :: t =>
      match assoc_last k t with
      | Some v' => Some v'
      | None => if String.eqb k k' then Some v else None
      end
  end.

(** [v[k]] for a string key. *)
Definition getitem (v : json) (k : String.string) : pres json :=
  match v with
  | JObj kv => match assoc_last k kv with Some x => inr x | None => inl (KeyError k) end
  | _ => inl TypeError
  end.

(** [v[0]]; a dict decoded from JSON has only string keys. *)
Definition getitem0 (v : json) : pres json :=
  match v with
  | JArr (x :: _) => inr x
  | JArr [] => inl IndexError
  | JStr s =>
      match String.get 0 s with
      | Some c => inr (JStr (String.String c String.EmptyString))
      | None => inl IndexError
      end
  | JObj _ => inl (KeyError "0")
  | _ => inl TypeError
  end.

(** [k in v]: a key of a dict, an element of a list, a substring of a
    string; [TypeError] for the other values. *)
Definition contains (k : String.string) (v : json) : pres bool :=
  match v with
  | JObj kv => inr (match assoc_last k kv with Some _ => true | None => false end)
  | JArr l =>
      inr (existsb (fun x => match x with JStr s => String.eqb s k | _ => false end) l)
  | JStr s => inr (match String.index 0 k s with Some _ => true | None => false end)
  | _ => inl TypeError
  end.

(** [bool(v)]. *)
Definition truthy (v : json) : bool :=
  match v with
  | JNull => false
  | JBool b => b
  | JNum q => negb (Qc_eqb q 0)
  | JStr s => negb (String.eqb s "")
  | JArr l => match l with [] => false | _ => true end
  | JObj kv => match kv with [] => false | _ => true end
  end.

(** [list(v.keys())], printed only: a value that is not a dict has no
    [keys] attribute. *)
Definition keys (v : json) : pres (list String.string) :=
  match v with
  | JObj kv => inr (map fst kv)
  | _ => inl AttributeError
  end.

(** The parts of a [requests.Response] the code reads: [status_code] and
    the outcome of [response.json()]. *)
Record response : Type := mkResponse {
  status_code : Z;
  json_body : pres json
}.

End Py.

Notation "'let!' x ':=' r 'in' k" := (Py.pbind r (fun x => k))
  (at level 200, x name, r at level 100, k at level 200).

(** ** The engines of src/app.py that differ from calc.py *)

Module App.

Definition calculate_rsi (data : list num) (window : Z) : result (list num) :=
  let delta := diff data in
  gain <- rolling_mean window (map (where0 (fun d => ngt d (Fin 0))) delta) ;;
  loss <- rolling_mean window
            (map nneg (map (where0 (fun d => nlt d (Fin 0))) delta)) ;;
  let rs := map2 ndiv gain loss in
  inr (map Calc.rsi_of_rs rs).

(** [buy_prices[buy_signal] = df['Close'][buy_signal]] on an all-NaN Series. *)
Definition mask_prices (signal : list bool) (close : list num) : list num :=
  map2 (fun (b : bool) (c : num) => if b then c else NaN) signal close.

Definition calculate_vwap_crossover (df : list bar) (sma_period : Z)
  : result (list num * list num) :=
  let vwap := CalcVwap.calculate_vwap df in
  sma <- Calc.calculate_sma (closes df) sma_period ;;
  let prev_sma := shift1 sma in
  let prev_vwap := shift1 vwap in
  let buy_signal := map2 andb (map2 ngt sma vwap) (map2 nle prev_sma prev_vwap) in
  let sell_signal := map2 andb (map2 nlt sma vwap) (map2 nge prev_sma prev_vwap) in
  inr (mask_prices buy_signal (closes df), mask_prices sell_signal (closes df)).

(** The engines app.py defines again with the bodies of calc.py; MACD and
    the middle Bollinger band go through app.py's own [calculate_ema] and
    [calculate_sma]. *)
Definition calculate_sma (data : list num) (window : Z) : result (list num) :=
  rolling_mean window data.

Definition calculate_ema (data : list num) (window : Z) : result (list num) :=
  ewm_span window data.

Definition calculate_macd (data : list num)
  (fast_period slow_period signal_period : Z)
  : result (list num * list num * list num) :=
  fast_ema <- calculate_ema data fast_period ;;
  slow_ema <- calculate_ema data slow_period ;;
  let macd_line := map2 nsub fast_ema slow_ema in
  signal_line <- calculate_ema macd_line signal_period ;;
  let macd_histogram := map2 nsub macd_line signal_line in
  inr (macd_line, signal_line, macd_histogram).

Definition calculate_bollinger_bands (sqrt : Qc -> Qc) (data : list num)
  (window : Z) (num_std : num) : result (list num * list num * list num) :=
  middle_band <- calculate_sma data window ;;
  std <- rolling_std sqrt window data ;;
  let upper_band := map2 nadd middle_band (map (fun s => nmul s num_std) std) in
  let lower_band := map2 nsub middle_band (map (fun s => nmul s num_std) std) in
  inr (upper_band, middle_band, lower_band).

Definition calculate_vwap (df : list bar) : list num :=
  map2 ndiv (cumsum (map (fun b => nmul (CalcVwap.typical_price b) (Volume b)) df))
            (cumsum (map Volume df)).

(** *** [fetch_stock_data]

    [http_get k symbol period1 period2] is the outcome of the [k]-th call of
    the session's [get] (with its retrying adapter) for the chart URL of
    [symbol]; [timestamp_of d] is [int(pd.Timestamp(d).timestamp())];
    [to_datetime] is [pd.to_datetime(..., unit='s')] and [make_frame] the
    DataFrame built from the six columns and indexed by [Date]. *)

Local Open Scope string_scope.

Section Fetch.

Variable http_get : nat -> String.string -> Z -> Z -> Py.pres Py.response.
Variable timestamp_of : String.string -> Py.pres Z.
Variable to_datetime : Py.json -> Py.pres Py.json.
Variable make_frame :
  Py.json -> Py.json -> Py.json -> Py.json -> Py.json -> Py.json -> Py.pres (list bar).

(** [data['chart']['result']] truthy, tested left to right with [and]. *)
Definition response_is_valid (data : Py.json) : Py.pres bool :=
  let! has_chart := Py.contains "chart" data in
  if negb has_chart then inr false else
  let! chart := Py.getitem data "chart" in
  let! has_result := Py.contains "result" chart in
  if negb has_result then inr false else
  let! res := Py.getitem chart "result" in
  inr (Py.truthy res).

(** [result['indicators']['quote'][0][col]]. *)
Definition quote_column (result : Py.json) (col : String.string) : Py.pres Py.json :=
  let! indicators := Py.getitem result "indicators" in
  let! quote := Py.getitem indicators "quote" in
  let! quote0 := Py.getitem0 quote in
  Py.getitem quote0 col.

(** The DataFrame of a valid response, its columns evaluated in the order
    of the dict literal. *)
Definition frame_of_response (data : Py.json) : Py.pres (list bar) :=
  let! chart := Py.getitem data "chart" in
  let! results := Py.getitem chart "result" in
  let! result := Py.getitem0 results in
  let! timestamp := Py.getitem result "timestamp" in
  let! date := to_datetime timestamp in
  let! o := quote_column result "open" in
  let! h := quote_column result "high" in
  let! l := quote_column result "low" in
  let! c := quote_column result "close" in
  let! v := quote_column result "volume" in
  make_frame date o h l c v.

Definition invalid_structure_msg (symbol : String.string) : String.string :=
  String.append "Could not fetch data for "
    (String.append symbol ". Response structure is invalid.").

(** From [data = response.json()] to the end of the [try] block. *)
Definition handle_response (symbol : String.string) (response : Py.response)
  : Py.pres (list bar) :=
  let! data := Py.json_body response in
  let! _keys := Py.keys data in
  let! valid := response_is_valid data in
  if valid then frame_of_response data
  else inl (Py.ValueError (invalid_structure_msg symbol)).

(** The [try] block: the number of requests made, the value [response] is
    bound to when the block ends (none if the first request raised), and
    the block's outcome. *)
Definition try_block (symbol : String.string) (period1 period2 : Z)
  : nat * option Py.response * Py.pres (list bar) :=
  match http_get 0 symbol period1 period2 with
  | inl e => (1%nat, None, inl e)
  | inr response =>
      if (Py.status_code response =? 429)%Z then
        match http_get 1 symbol period1 period2 with
        | inl e => (2%nat, Some response, inl e)
        | inr response' => (2%nat, Some response', handle_response symbol response')
        end
      else (1%nat, Some response, handle_response symbol response)
  end.

(** The number of requests made and the outcome.  [params] is built before
    the [try]; the handler [except Exception] evaluates
    [hasattr(response, 'text')], which raises [UnboundLocalError] when
    [response] was never assigned, and otherwise re-raises. *)
Definition fetch_stock_data (symbol start_date end_date : String.string)
  : nat * Py.pres (list bar) :=
  match timestamp_of start_date with
  | inl e => (0%nat, inl e)
  | inr period1 =>
      match timestamp_of end_date with
      | inl e => (0%nat, inl e)
      | inr period2 =>
          let '(calls, bound, outcome) := try_block symbol period1 period2 in
          match outcome with
          | inr df => (calls, inr df)
          | inl e =>
              match bound with
              | None => (calls, inl (Py.UnboundLocalError "response"))
              | Some _ => (calls, inl e)
              end
          end
      end
  end.

End Fetch.

(** *** [update_chart]

    Plotly traces and figures, with the data they plot; the x values of a
    line are the DataFrame's index, those of the markers the positions that
    [dropna] keeps.  Layout options that carry no data (colours, widths,
    template, height, margins) are left out. *)

Inductive trace : Type :=
| Candlestick (df : list bar)
| Scatter (name : String.string) (y : list num)
| Markers (name : String.string) (x : list nat) (y : list num).

Definition trace_name (t : trace) : String.string :=
  match t with
  | Candlestick _ => "Price"
  | Scatter n _ => n
  | Markers n _ _ => n
  end.

Inductive figure : Type :=
| ErrorFigure (e : Py.exn)
| SubplotFigure (rows : nat) (row_heights : list Q) (placed : list (trace * nat))
    (title : String.string) (yaxes : list (nat * String.string))
| SingleFigure (data : list trace) (title : String.string).

(** [s.dropna()]: its index and its values. *)
Definition dropna_index (s : list num) : list nat :=
  map fst (filter (fun p => is_obs (snd p)) (combine (seq 0 (length s)) s)).

Definition dropna_values (s : list num) : list num := filter is_obs s.

(** [a, b = t] for a tuple [t] given as the list of its items. *)
Definition unpack2 {A} (vals : list A) : Py.pres (A * A) :=
  match vals with
  | [a; b] => inr (a, b)
  | [] => inl (Py.ValueError "not enough values to unpack (expected 2, got 0)")
  | [_] => inl (Py.ValueError "not enough values to unpack (expected 2, got 1)")
  | _ => inl (Py.ValueError "too many values to unpack (expected 2)")
  end.

Section Chart.

(** The square root of [np.sqrt] in [rolling().std()]. *)
Variable sqrt : Qc -> Qc.

Definition when_ind (c : bool) (body : list trace -> Py.pres (list trace))
  (traces : list trace) : Py.pres (list trace) :=
  if c then body traces else inr traces.

(** One pass of [for indicator in indicators]: its [if] statements in
    order. *)
Definition add_indicator (df : list bar) (traces : list trace)
  (indicator : String.string) : Py.pres (list trace) :=
  let! traces := when_ind (String.eqb indicator "sma50") (fun traces =>
      let! sma_50 := Py.of_pandas (calculate_sma (closes df) 50) in
      inr (app traces [Scatter "SMA 50" sma_50])) traces in
  let! traces := when_ind (String.eqb indicator "sma200") (fun traces =>
      let! sma_200 := Py.of_pandas (calculate_sma (closes df) 200) in
      inr (app traces [Scatter "SMA 200" sma_200])) traces in
  let! traces := when_ind (String.eqb indicator "ema50") (fun traces =>
      let! ema_50 := Py.of_pandas (calculate_ema (closes df) 50) in
      inr (app traces [Scatter "EMA 50" ema_50])) traces in
  let! traces := when_ind (String.eqb indicator "ema200") (fun traces =>
      let! ema_200 := Py.of_pandas (calculate_ema (closes df) 200) in
      inr (app traces [Scatter "EMA 200" ema_200])) traces in
  let! traces := when_ind (String.eqb indicator "rsi") (fun traces =>
      let! rsi := Py.of_pandas (calculate_rsi (closes df) 14) in
      inr (app traces [Scatter "RSI" rsi])) traces in
  let! traces := when_ind (String.eqb indicator "macd") (fun traces =>
      let! out := Py.of_pandas (calculate_macd (closes df) 12 26 9) in
      let '(macd_line, signal_line, macd_histogram) := out in
      let! ms := unpack2 [macd_line; signal_line; macd_histogram] in
      let '(macd, signal) := ms in
      inr (app traces [Scatter "MACD" macd; Scatter "Signal" signal])) traces in
  let! traces := when_ind (String.eqb indicator "bbands") (fun traces =>
      let! bb := Py.of_pandas
                   (calculate_bollinger_bands sqrt (closes df) 20 (Fin (Qc_of_Z 2))) in
      let '(upper, middle, lower) := bb in
      inr (app traces [Scatter "BB Upper" upper; Scatter "BB Middle" middle;
                       Scatter "BB Lower" lower])) traces in
  when_ind (String.eqb indicator "vwap") (fun traces =>
      let vwap := calculate_vwap df in
      let traces := app traces [Scatter "VWAP" vwap] in
      let! sma9 := Py.of_pandas (calculate_sma (closes df) 9) in
      let traces := app traces [Scatter "SMA 9" sma9] in
      let! signals := Py.of_pandas (calculate_vwap_crossover df 9) in
      let '(buy_signals, sell_signals) := signals in
      let traces := app traces [Markers "Buy Signal" (dropna_index buy_signals)
                                  (dropna_values buy_signals)] in
      inr (app traces [Markers "Sell Signal" (dropna_index sell_signals)
                         (dropna_values sell_signals)])) traces.

(** ['x' in indicators]. *)
Definition has (indicators : list String.string) (x : String.string) : bool :=
  existsb (String.eqb x) indicators.

(** The subplot row of a trace: [RSI] in row 2, [MACD] and [Signal] below
    it, the rest on the price chart. *)
Definition row_of (indicators : list String.string) (t : trace) : nat :=
  if existsb (String.eqb (trace_name t)) ["RSI"] then 2%nat
  else if existsb (String.eqb (trace_name t)) ["MACD"; "Signal"]
  then (if has indicators "rsi" then 3%nat else 2%nat)
  else 1%nat.

(** [update_chart]; [fetch] is [fetch_stock_data], whose exceptions the
    callback turns into an error figure. *)
Definition update_chart
  (fetch : String.string -> String.string -> String.string -> Py.pres (list bar))
  (symbol start_date end_date : String.string) (indicators : list String.string)
  : Py.pres figure :=
  match fetch symbol start_date end_date with
  | inl e => inr (ErrorFigure e)
  | inr df =>
      let! traces :=
        fold_left (fun acc indicator => let! traces := acc in
                                        add_indicator df traces indicator)
          indicators (inr [Candlestick df]) in
      let title := String.append symbol " Stock Analysis" in
      if has indicators "rsi" || has indicators "macd" then
        let both := has indicators "macd" && has indicators "rsi" in
        let rows := if both then 3%nat else 2%nat in
        let row_heights :=
          if both then [(6#10)%Q; (2#10)%Q; (2#10)%Q] else [(7#10)%Q; (3#10)%Q] in
        let placed := map (fun t => (t, row_of indicators t)) traces in
        let yaxes :=
          app [(1%nat, "Price")]
            (app (if has indicators "rsi" then [(2%nat, "RSI")] else [])
                 (if has indicators "macd"
                  then [(if has indicators "rsi" then 3%nat else 2%nat, "MACD")]
                  else [])) in
        inr (SubplotFigure rows row_heights placed title yaxes)
      else inr (SingleFigure traces title)
  end.

End Chart.

End App.

(** ** Formulas the claims are stated with *)

(** The EMA smoothing factor of the claims, [2 / (span + 1)]. *)
Definition ema_alpha (span : Z) : Qc := Qc_of_Z 2 / (Qc_of_Z span + 1).

(** The EMA recursion [e_i = alpha * s_i + (1 - alpha) * e_(i-1)], from a
    previous value [prev]. *)
Fixpoint ema_rec (alpha prev : Qc) (s : list Qc) : list Qc :=
  match s with
  | [] => []
  | c :: t =>
      let v := alpha * c + (1 - alpha) * prev in v :: ema_rec alpha v t
  end.

Definition qsum (l : list Qc) : Qc := fold_right Qcplus 0 l.

(** A square root of non-negative rationals (the integer square root of the
    floor), used to run the Bollinger engine on concrete data. *)
Definition isqrt_floor (q : Qc) : Qc := Qc_of_Z (Z.sqrt (Qfloor q)).

(** The value of a finite double. *)
Definition qv (x : num) : Qc := match x with Fin q => q | _ => 0 end.

(** A well-formed bar: finite high, low, close and volume, and [volume >= 0]. *)
Definition finite_bar (b : bar) : Prop :=
  exists h l c v : Qc,
    High b = Fin h /\ Low b = Fin l /\ Close b = Fin c /\ Volume b = Fin v /\ 0 <= v.

(** The typical price of the claims, [(high + low + close) / 3]. *)
Definition typical_q (b : bar) : Qc :=
  (qv (High b) + qv (Low b) + qv (Close b)) / Qc_of_Z 3.

(** ** What [update_chart] draws *)

Open Scope string_scope.

(** The names of the traces one entry of [indicators] adds, read off the
    [if] statements of [update_chart]. *)
Definition indicator_names (indicator : String.string) : list String.string :=
  if String.eqb indicator "sma50" then ["SMA 50"]
  else if String.eqb indicator "sma200" then ["SMA 200"]
  else if String.eqb indicator "ema50" then ["EMA 50"]
  else if String.eqb indicator "ema200" then ["EMA 200"]
  else if String.eqb indicator "rsi" then ["RSI"]
  else if String.eqb indicator "macd" then ["MACD"; "Signal"]
  else if String.eqb indicator "bbands" then ["BB Upper"; "BB Middle"; "BB Lower"]
  else if String.eqb indicator "vwap" then ["VWAP"; "SMA 9"; "Buy Signal"; "Sell Signal"]
  else [].

(** The traces of a figure, in the order they were added. *)
Definition figure_traces (fig : App.figure) : list App.trace :=
  match fig with
  | App.ErrorFigure _ => []
  | App.SubplotFigure _ _ placed _ _ => map fst placed
  | App.SingleFigure data _ => data
  end.

(** A double that is NaN or a finite value satisfying [P]: never infinite. *)
Definition fin_in (P : Qc -> Prop) (x : num) : Prop :=
  match x with Fin a => P a | NaN => True | PInf | NInf => False end.

(* PROOFS *)

(** * Arithmetic facts *)

Lemma Qc_eqb_spec (a b : Qc) : Qc_eqb a b = true <-> a = b.
Proof.
  unfold Qc_eqb. rewrite Qceq_alt.
  destruct (a ?= b); split; intro H; congruence.
Qed.

Lemma Qc_ltb_spec (a b : Qc) : Qc_ltb a b = true <-> a < b.
Proof.
  unfold Qc_ltb. rewrite Qclt_alt.
  destruct (a ?= b); split; intro H; congruence.
Qed.

Lemma Qc_leb_spec (a b : Qc) : Qc_leb a b = true <-> a <= b.
Proof.
  unfold Qc_leb. rewrite Qcle_alt.
  destruct (a ?= b); split; intro H; congruence.
Qed.

Lemma Qc_eqb_refl (a : Qc) : Qc_eqb a a = true.
Proof. apply Qc_eqb_spec; reflexivity. Qed.

Lemma Qc_of_Z_add (a b : Z) : Qc_of_Z (a + b) = Qc_of_Z a + Qc_of_Z b.
Proof.
  apply Qc_is_canon. unfold Qc_of_Z, Qcplus, Q2Qc; cbn [this].
  rewrite !Qred_correct, inject_Z_plus. reflexivity.
Qed.

Lemma Qc_of_Z_inj (a b : Z) : Qc_of_Z a = Qc_of_Z b -> a = b.
Proof.
  intro H. apply (f_equal this) in H. unfold Qc_of_Z, Q2Qc in H; cbn [this] in H.
  apply Qred_eq_iff in H. unfold Qeq in H; simpl in H. lia.
Qed.

Lemma Qc_1_neq_0 : (1 : Qc) <> 0.
Proof. intro E. apply (f_equal this) in E. vm_compute in E. discriminate. Qed.

Lemma Qc_of_Z_0 : Qc_of_Z 0 = 0.
Proof. apply Qc_is_canon. reflexivity. Qed.

Lemma Qc_of_Z_1 : Qc_of_Z 1 = 1.
Proof. apply Qc_is_canon. reflexivity. Qed.

Lemma Qc_of_Z_neq0 (z : Z) : z <> 0%Z -> Qc_of_Z z <> 0.
Proof.
  intros Hz H. apply Hz, Qc_of_Z_inj. rewrite H, Qc_of_Z_0. reflexivity.
Qed.

Lemma Qc_of_Z_nonneg (z : Z) : (0 <= z)%Z -> 0 <= Qc_of_Z z.
Proof.
  intro Hz. unfold Qcle, Qc_of_Z, Q2Qc; cbn [this].
  rewrite !Qred_correct. unfold Qle; simpl. lia.
Qed.

Lemma isqrt_floor_nonneg (q : Qc) : 0 <= q -> 0 <= isqrt_floor q.
Proof. intros _. apply Qc_of_Z_nonneg, Z.sqrt_nonneg. Qed.

Lemma Qc_of_nat_Z (n : nat) : Qc_of_nat n = Qc_of_Z (Z.of_nat n).
Proof. reflexivity. Qed.

(** The smoothing factor pandas derives from [span] is [2 / (span + 1)]. *)
Lemma span_alpha (span : Z) : (1 <= span)%Z ->
  1 / (1 + (Qc_of_Z span - 1) / Qc_of_Z 2) = ema_alpha span.
Proof.
  intro Hs. unfold ema_alpha.
  assert (H2 : Qc_of_Z 2 <> 0) by (apply Qc_of_Z_neq0; lia).
  assert (H1 : Qc_of_Z span + 1 <> 0).
  { rewrite <- Qc_of_Z_1, <- Qc_of_Z_add. apply Qc_of_Z_neq0; lia. }
  assert (E2 : Qc_of_Z 2 = 1 + 1)
    by (rewrite <- Qc_of_Z_1, <- Qc_of_Z_add; reflexivity).
  assert (H3 : Qc_of_Z 2 + (Qc_of_Z span - 1) <> 0).
  { rewrite E2. intro E. apply H1. rewrite <- E. ring. }
  rewrite E2 in *. field.
  split; [exact H1 | intro E; apply (f_equal this) in E; vm_compute in E;
                     discriminate].
Qed.

(** * Exponential smoothing on finite values *)

Section Ewm.

Variable alpha : Qc.

(** After an observation pandas' [old_wt] is 1, and one step on a finite
    value is the EMA recursion, whether or not [weighted != cur]. *)
Lemma ewm_step_fin (w c : Qc) (n : nat) :
  ewm_step alpha (Fin w, 1, n) (Fin c) =
  (Fin (alpha * c + (1 - alpha) * w), 1, S n).
Proof.
  unfold ewm_step; cbn [is_obs negb].
  destruct (neqb (Fin w) (Fin c)) eqn:E; cbn [negb].
  - apply Qc_eqb_spec in E. subst c. f_equal. f_equal. f_equal. ring.
  - cbn [nmul nadd ndiv].
    assert (E1 : 1 * (1 - alpha) + alpha = 1) by ring.
    rewrite E1. replace (Qc_eqb 1 0) with false by (vm_compute; reflexivity).
    f_equal. f_equal. f_equal. field. exact Qc_1_neq_0.
Qed.

Lemma ewm_loop_fin (s : list Qc) : forall (w : Qc) (n : nat),
  ewm_loop alpha (Fin w, 1, S n) (map Fin s) = map Fin (ema_rec alpha w s).
Proof.
  induction s as [| c s IH]; intros w n; [reflexivity |].
  cbn [map ewm_loop ema_rec]. rewrite ewm_step_fin, IH. reflexivity.
Qed.

Lemma ewm_mean_fin (s0 : Qc) (s : list Qc) :
  ewm_mean alpha (map Fin (s0 :: s)) = map Fin (s0 :: ema_rec alpha s0 s).
Proof.
  cbn [map ewm_mean is_obs]. rewrite ewm_loop_fin. reflexivity.
Qed.

Lemma ema_rec_length (s : list Qc) : forall w, length (ema_rec alpha w s) = length s.
Proof. induction s; intros; simpl; auto. Qed.

Lemma ema_rec_nth (s : list Qc) : forall (prev : Qc) (i : nat),
  (i < length s)%nat ->
  nth i (ema_rec alpha prev s) 0 =
  alpha * nth i s 0 + (1 - alpha) * nth i (prev :: ema_rec alpha prev s) 0.
Proof.
  induction s as [| c s IH]; intros prev i Hi; [simpl in Hi; lia |].
  destruct i as [| i]; [reflexivity |].
  cbn [ema_rec nth]. apply IH. simpl in Hi. lia.
Qed.

End Ewm.

(** ** C3: EMA seed and recursion *)

(** C3: for finite input and [span >= 1], [calculate_ema] succeeds, every
    output position is a finite value (never undefined), [ema[0] = s[0]],
    and [ema[i] = alpha * s[i] + (1 - alpha) * ema[i-1]] for [i >= 1] with
    [alpha = 2 / (span + 1)]. *)
Theorem ema_seed_and_recursion (s : list Qc) (span : Z) :
  (1 <= span)%Z ->
  exists e : list Qc,
    Calc.calculate_ema (map Fin s) span = inr (map Fin e) /\
    length e = length s /\
    hd_error e = hd_error s /\
    (forall i : nat, (S i < length s)%nat ->
       nth (S i) e 0 =
       ema_alpha span * nth (S i) s 0 + (1 - ema_alpha span) * nth i e 0).
Proof.
  intro Hs.
  unfold Calc.calculate_ema, ewm_span.
  replace (span <? 1)%Z with false by (symmetry; apply Z.ltb_ge; lia).
  rewrite (span_alpha span Hs).
  destruct s as [| s0 s].
  - exists []. repeat split. intros i Hi; simpl in Hi; lia.
  - exists (s0 :: ema_rec (ema_alpha span) s0 s).
    rewrite ewm_mean_fin. repeat split.
    + simpl. rewrite ema_rec_length. reflexivity.
    + intros i Hi. cbn [nth]. apply ema_rec_nth. simpl in Hi. lia.
Qed.

Lemma ema_seed_and_recursion_witness :
  (1 <= 3)%Z /\
  exists e : list Qc,
    Calc.calculate_ema (map Fin [1; 0; 1]) 3 = inr (map Fin e) /\
    length e = length [1; 0; 1] /\
    hd_error e = hd_error [1; 0; 1] /\
    (forall i : nat, (S i < length [1; 0; 1])%nat ->
       nth (S i) e 0 =
       ema_alpha 3 * nth (S i) [1; 0; 1] 0 + (1 - ema_alpha 3) * nth i e 0).
Proof.
  split; [lia | apply (ema_seed_and_recursion [1; 0; 1] 3); lia].
Defined.

(** * Lengths and positions of element-wise operations *)

Lemma map2_length {A B C} (f : A -> B -> C) (l1 : list A) (l2 : list B) :
  length (map2 f l1 l2) = Nat.min (length l1) (length l2).
Proof.
  revert l2; induction l1 as [| a l1 IH]; intros [| b l2]; simpl; auto.
Qed.

Lemma map2_nth {A B C} (f : A -> B -> C) (l1 : list A) (l2 : list B)
  (i : nat) (da : A) (db : B) (dc : C) :
  (i < length l1)%nat -> (i < length l2)%nat ->
  nth i (map2 f l1 l2) dc = f (nth i l1 da) (nth i l2 db).
Proof.
  revert l2 i; induction l1 as [| a l1 IH]; intros [| b l2] i H1 H2;
    simpl in *; try lia.
  destruct i; [reflexivity | apply IH; lia].
Qed.

Lemma ewm_loop_length (alpha : Qc) (s : list num) :
  forall st, length (ewm_loop alpha st s) = length s.
Proof. induction s; intros; simpl; auto. Qed.

Lemma ewm_mean_length (alpha : Qc) (s : list num) :
  length (ewm_mean alpha s) = length s.
Proof. destruct s; simpl; [reflexivity | rewrite ewm_loop_length; reflexivity]. Qed.

Lemma ewm_span_length (span : Z) (s e : list num) :
  ewm_span span s = inr e -> length e = length s.
Proof.
  unfold ewm_span. destruct (span <? 1)%Z; intro H; inversion H.
  apply ewm_mean_length.
Qed.

(** ** C4: the MACD histogram *)

(** C4: whenever [calculate_macd] returns, the MACD line is
    [EMA(s, fast) - EMA(s, slow)], the signal line is the EMA of the MACD
    line with the signal period, all three series have the length of [s],
    and at every position the histogram is exactly the double subtraction
    [macd_line[i] - signal_line[i]]. *)
Theorem macd_histogram_exact (s : list num) (fast slow signal : Z)
  (macd_line signal_line hist : list num) :
  Calc.calculate_macd s fast slow signal = inr (macd_line, signal_line, hist) ->
  (exists fast_ema slow_ema,
     Calc.calculate_ema s fast = inr fast_ema /\
     Calc.calculate_ema s slow = inr slow_ema /\
     macd_line = map2 nsub fast_ema slow_ema) /\
  Calc.calculate_ema macd_line signal = inr signal_line /\
  length macd_line = length s /\ length signal_line = length s /\
  length hist = length s /\
  (forall i : nat, (i < length s)%nat ->
     nth i hist NaN = nsub (nth i macd_line NaN) (nth i signal_line NaN)).
Proof.
  unfold Calc.calculate_macd, Calc.calculate_ema, bind.
  destruct (ewm_span fast s) as [e | fe] eqn:Ef; [discriminate |].
  destruct (ewm_span slow s) as [e | se] eqn:Es; [discriminate |].
  destruct (ewm_span signal (map2 nsub fe se)) as [e | sg] eqn:Eg;
    [discriminate |].
  intro H. inversion H; subst macd_line signal_line hist; clear H.
  apply ewm_span_length in Ef as Lf. apply ewm_span_length in Es as Ls.
  apply ewm_span_length in Eg as Lg.
  assert (Lm : length (map2 nsub fe se) = length s)
    by (rewrite map2_length; lia).
  split; [exists fe, se; auto |].
  split; [exact Eg |].
  split; [exact Lm |]. split; [lia |].
  split; [rewrite map2_length; lia |].
  intros i Hi. apply map2_nth; lia.
Qed.

Lemma macd_histogram_exact_witness :
  match Calc.calculate_macd [Fin 1; Fin (Qc_of_Z 3); Fin 0] 12 26 9 with
  | inr (m, sg, h) =>
      Calc.calculate_macd [Fin 1; Fin (Qc_of_Z 3); Fin 0] 12 26 9 = inr (m, sg, h) /\
      ((exists fast_ema slow_ema,
          Calc.calculate_ema [Fin 1; Fin (Qc_of_Z 3); Fin 0] 12 = inr fast_ema /\
          Calc.calculate_ema [Fin 1; Fin (Qc_of_Z 3); Fin 0] 26 = inr slow_ema /\
          m = map2 nsub fast_ema slow_ema) /\
       Calc.calculate_ema m 9 = inr sg /\
       length m = 3%nat /\ length sg = 3%nat /\ length h = 3%nat /\
       (forall i : nat, (i < 3)%nat ->
          nth i h NaN = nsub (nth i m NaN) (nth i sg NaN)))
  | inl _ => False
  end.
Proof.
  destruct (Calc.calculate_macd [Fin 1; Fin (Qc_of_Z 3); Fin 0] 12 26 9)
    as [e | [[m sg] h]] eqn:E.
  - vm_compute in E. discriminate.
  - split; [reflexivity |].
    exact (macd_histogram_exact [Fin 1; Fin (Qc_of_Z 3); Fin 0] 12 26 9 m sg h E).
Defined.

(** * Rolling windows on finite values *)

Lemma ndiv_fin (a b : Qc) : b <> 0 -> ndiv (Fin a) (Fin b) = Fin (a / b).
Proof.
  intro Hb. cbn [ndiv].
  destruct (Qc_eqb b 0) eqn:E; [apply Qc_eqb_spec in E; contradiction | reflexivity].
Qed.

Lemma nsum_fin_from (l : list Qc) : forall a : Qc,
  fold_left nadd (map Fin l) (Fin a) = Fin (a + qsum l).
Proof.
  induction l as [| x l IH]; intro a; simpl.
  - f_equal. ring.
  - rewrite IH. f_equal. unfold qsum. simpl. ring.
Qed.

Lemma nsum_fin (l : list Qc) : nsum (map Fin l) = Fin (qsum l).
Proof. unfold nsum. rewrite nsum_fin_from. f_equal. ring. Qed.

Lemma filter_obs_fin (l : list Qc) : filter is_obs (map Fin l) = map Fin l.
Proof. induction l; simpl; congruence. Qed.

Lemma rolling_apply_length (f : list num -> num) (w : nat) (s : list num) :
  length (rolling_apply f w s) = length s.
Proof. unfold rolling_apply. rewrite length_map, length_seq. reflexivity. Qed.

Lemma rolling_apply_nth (f : list num -> num) (w : nat) (s : list num) (i : nat) :
  (i < length s)%nat -> nth i (rolling_apply f w s) NaN = f (win s w i).
Proof.
  intro Hi. unfold rolling_apply.
  assert (E := map_nth (fun j => f (win s w j)) (seq 0 (length s)) 0%nat i).
  cbv beta in E.
  rewrite (nth_indep _ NaN (f (win s w 0))) by (rewrite length_map, length_seq; exact Hi).
  rewrite E, seq_nth by exact Hi. reflexivity.
Qed.

Lemma win_fin (s : list Qc) (w i : nat) :
  win (map Fin s) w i = map Fin (firstn (Nat.min w (S i)) (skipn (S i - w) s)).
Proof. unfold win. rewrite skipn_map, firstn_map. reflexivity. Qed.

Lemma win_length (s : list Qc) (w i : nat) : (i < length s)%nat ->
  length (firstn (Nat.min w (S i)) (skipn (S i - w) s)) = Nat.min w (S i).
Proof. intro Hi. rewrite length_firstn, length_skipn. lia. Qed.

Lemma Qc_of_nat_neq0 (n : nat) : n <> 0%nat -> Qc_of_nat n <> 0.
Proof. intro Hn. rewrite Qc_of_nat_Z. apply Qc_of_Z_neq0. lia. Qed.

(** ** C2: shape and values of the SMA *)

(** C2: for a finite series [s] and [1 <= w <= len s], [calculate_sma]
    returns a series of the length of [s], NaN (undefined) at positions
    [0 .. w-2], and at every position [i >= w-1] the mean of the [w] values
    [s[i-w+1 .. i]]. *)
Theorem sma_shape_and_mean (s : list Qc) (w : Z) :
  (1 <= w <= Z.of_nat (length s))%Z ->
  exists out : list num,
    Calc.calculate_sma (map Fin s) w = inr out /\
    length out = length s /\
    (forall i : nat, (i + 2 <= Z.to_nat w)%nat -> nth i out NaN = NaN) /\
    (forall i : nat, (Z.to_nat w - 1 <= i < length s)%nat ->
       nth i out NaN =
       Fin (qsum (firstn (Z.to_nat w) (skipn (i + 1 - Z.to_nat w) s)) / Qc_of_Z w)).
Proof.
  intro Hw.
  unfold Calc.calculate_sma, rolling_mean, rolling_check, bind.
  replace (w <? 0)%Z with false by (symmetry; apply Z.ltb_ge; lia).
  set (n := Z.to_nat w).
  assert (Hn : (1 <= n <= length s)%nat) by lia.
  eexists; split; [reflexivity |].
  split; [rewrite rolling_apply_length, length_map; reflexivity |].
  split.
  - intros i Hi.
    rewrite rolling_apply_nth by (rewrite length_map; lia).
    unfold roll_mean_at. rewrite win_fin, filter_obs_fin, length_map.
    rewrite win_length by lia.
    replace (n <=? Nat.min n (S i))%nat with false by (symmetry; apply Nat.leb_gt; lia).
    reflexivity.
  - intros i Hi.
    rewrite rolling_apply_nth by (rewrite length_map; lia).
    unfold roll_mean_at. rewrite win_fin, filter_obs_fin, length_map.
    rewrite win_length by lia.
    replace (Nat.min n (S i)) with n by lia.
    replace (n <=? n)%nat with true by (symmetry; apply Nat.leb_le; lia).
    replace (0 <? n)%nat with true by (symmetry; apply Nat.ltb_lt; lia).
    cbn [andb]. rewrite nsum_fin, ndiv_fin by (apply Qc_of_nat_neq0; lia).
    replace (S i - n)%nat with (i + 1 - n)%nat by lia.
    rewrite Qc_of_nat_Z. unfold n. rewrite Z2Nat.id by lia. reflexivity.
Qed.

Lemma sma_shape_and_mean_witness :
  (1 <= 3 <= Z.of_nat (length [1; 0; 1; 1]))%Z /\
  exists out : list num,
    Calc.calculate_sma (map Fin [1; 0; 1; 1]) 3 = inr out /\
    length out = length [1; 0; 1; 1] /\
    (forall i : nat, (i + 2 <= Z.to_nat 3)%nat -> nth i out NaN = NaN) /\
    (forall i : nat, (Z.to_nat 3 - 1 <= i < length [1; 0; 1; 1])%nat ->
       nth i out NaN =
       Fin (qsum (firstn (Z.to_nat 3) (skipn (i + 1 - Z.to_nat 3) [1; 0; 1; 1]))
            / Qc_of_Z 3)).
Proof.
  split; [simpl; lia | apply (sma_shape_and_mean [1; 0; 1; 1] 3); simpl; lia].
Defined.

(** * RSI *)

Lemma map2_nth_eq {A B C} (f : A -> B -> C) (l1 : list A) (l2 : list B)
  (i : nat) (da : A) (db : B) (dc : C) :
  length l1 = length l2 -> f da db = dc ->
  nth i (map2 f l1 l2) dc = f (nth i l1 da) (nth i l2 db).
Proof.
  intros Hl Hd. revert l2 i Hl; induction l1 as [| a l1 IH];
    intros [| b l2] i Hl; simpl in *; try discriminate.
  - destruct i; auto.
  - destruct i; [reflexivity | apply IH; lia].
Qed.

Lemma diff_length (s : list num) : length (diff s) = length s.
Proof.
  destruct s as [| x t]; [reflexivity |].
  cbn [diff length]. rewrite map2_length. simpl. lia.
Qed.

Lemma ewm_com_length (com : Z) (s e : list num) :
  ewm_com com s = inr e -> length e = length s.
Proof.
  unfold ewm_com. destruct (com <? 0)%Z; intro H; inversion H.
  apply ewm_mean_length.
Qed.

Lemma rsi_averages_length (data up down : list num) (window : Z) :
  Calc.rsi_averages data window = inr (up, down) ->
  length up = length data /\ length down = length data.
Proof.
  unfold Calc.rsi_averages, bind.
  destruct (ewm_com _ (map clip_lower0 (diff data))) as [e | u] eqn:Eu;
    [discriminate |].
  destruct (ewm_com _ (map (nmul _) (map clip_upper0 (diff data))))
    as [e | d] eqn:Ed; [discriminate |].
  intro H; inversion H; subst.
  apply ewm_com_length in Eu. apply ewm_com_length in Ed.
  rewrite !length_map, diff_length in *. auto.
Qed.

Lemma rsi_of_rs_nan : Calc.rsi_of_rs NaN = NaN.
Proof. reflexivity. Qed.

(** A positive average gain over a zero average loss is an infinite ratio,
    and [100 - 100 / (1 + inf)] is 100. *)
Lemma rsi_of_rs_pos_over_zero (u : num) :
  nlt (Fin 0) u = true -> Calc.rsi_of_rs (ndiv u (Fin 0)) = Fin (Qc_of_Z 100).
Proof.
  intro Hu.
  assert (Hd : ndiv u (Fin 0) = PInf).
  { destruct u as [g | | |]; try discriminate; [| reflexivity].
    cbn [nlt] in Hu. apply Qc_ltb_spec in Hu.
    assert (Hc : (g ?= 0) = Gt) by (apply Qcgt_alt; exact Hu).
    cbn [ndiv]. rewrite Qc_eqb_refl, Hc. reflexivity. }
  rewrite Hd. unfold Calc.rsi_of_rs. cbn [nadd ndiv nsub nneg].
  reflexivity.
Qed.

Lemma rsi_of_rs_zero_over_zero :
  Calc.rsi_of_rs (ndiv (Fin 0) (Fin 0)) = NaN.
Proof. reflexivity. Qed.

(** ** C1 (as the code does it): a zero average loss *)

(** C1, amended: wherever the smoothed loss [roll_down[i]] is 0, RSI at [i]
    is 100 when the smoothed gain [roll_up[i]] is positive (the ratio is
    infinite and [100 - 100/(1 + inf) = 100]; there is no explicit branch),
    and RSI at [i] is NaN, not 50, when the smoothed gain is 0 too. *)
Theorem rsi_zero_loss (data : list num) (window : Z) (roll_up roll_down : list num) :
  Calc.rsi_averages data window = inr (roll_up, roll_down) ->
  exists rsi : list num,
    Calc.calculate_rsi data window = inr rsi /\
    length rsi = length data /\
    (forall i : nat, nth i roll_down NaN = Fin 0 ->
       (nlt (Fin 0) (nth i roll_up NaN) = true ->
          nth i rsi NaN = Fin (Qc_of_Z 100)) /\
       (nth i roll_up NaN = Fin 0 -> nth i rsi NaN = NaN)).
Proof.
  intro H. pose proof (rsi_averages_length _ _ _ _ H) as [Lu Ld].
  unfold Calc.calculate_rsi. rewrite H. cbn [bind].
  eexists; split; [reflexivity |]. split.
  - rewrite length_map, map2_length. lia.
  - intros i Hd.
    rewrite <- rsi_of_rs_nan, map_nth, rsi_of_rs_nan.
    rewrite (map2_nth_eq ndiv roll_up roll_down i NaN NaN NaN)
      by (reflexivity || lia).
    rewrite Hd. split.
    + apply rsi_of_rs_pos_over_zero.
    + intro Hu. rewrite Hu. apply rsi_of_rs_zero_over_zero.
Qed.

Lemma rsi_zero_loss_witness :
  match Calc.rsi_averages [Fin 1; Fin (Qc_of_Z 2); Fin (Qc_of_Z 3)] 14 with
  | inr (u, d) =>
      Calc.rsi_averages [Fin 1; Fin (Qc_of_Z 2); Fin (Qc_of_Z 3)] 14 = inr (u, d) /\
      exists rsi : list num,
        Calc.calculate_rsi [Fin 1; Fin (Qc_of_Z 2); Fin (Qc_of_Z 3)] 14 = inr rsi /\
        length rsi = 3%nat /\
        (forall i : nat, nth i d NaN = Fin 0 ->
           (nlt (Fin 0) (nth i u NaN) = true -> nth i rsi NaN = Fin (Qc_of_Z 100)) /\
           (nth i u NaN = Fin 0 -> nth i rsi NaN = NaN))
  | inl _ => False
  end.
Proof.
  destruct (Calc.rsi_averages [Fin 1; Fin (Qc_of_Z 2); Fin (Qc_of_Z 3)] 14)
    as [e | [u d]] eqn:E.
  - vm_compute in E. discriminate.
  - split; [reflexivity |].
    exact (rsi_zero_loss [Fin 1; Fin (Qc_of_Z 2); Fin (Qc_of_Z 3)] 14 u d E).
Defined.

(** C1 as stated fails: on a flat series both smoothed averages are 0 at
    position 1, and RSI there is NaN, not 50. *)
Lemma rsi_flat_not_neutral :
  exists roll_up roll_down rsi : list num,
    Calc.rsi_averages [Fin 1; Fin 1] 14 = inr (roll_up, roll_down) /\
    nth 1 roll_up NaN = Fin 0 /\ nth 1 roll_down NaN = Fin 0 /\
    Calc.calculate_rsi [Fin 1; Fin 1] 14 = inr rsi /\
    nth 1 rsi NaN = NaN /\ nth 1 rsi NaN <> Fin (Qc_of_Z 50).
Proof.
  do 3 eexists. split; [reflexivity |].
  split; [vm_compute; f_equal; apply Qc_is_canon; reflexivity |].
  split; [vm_compute; f_equal; apply Qc_is_canon; reflexivity |].
  split; [reflexivity |].
  split; [vm_compute; reflexivity | vm_compute; discriminate].
Qed.

(** * Bollinger Bands *)

(** A double that is non-negative or NaN. *)
Definition nonneg_or_nan (x : num) : Prop :=
  match x with
  | Fin a => 0 <= a
  | PInf | NaN => True
  | NInf => False
  end.

Lemma Qcmult_nonneg (a b : Qc) : 0 <= a -> 0 <= b -> 0 <= a * b.
Proof.
  intros Ha Hb. replace 0 with (0 * b) by ring.
  apply Qcmult_le_compat_r; assumption.
Qed.

Lemma Qc_cmp_nonneg (a : Qc) : 0 <= a -> (a ?= 0) <> Lt.
Proof. intros Ha E. apply Qclt_alt in E. exact (Qcle_not_lt 0 a Ha E). Qed.

Lemma nmul_nonneg (x k : num) :
  nonneg_or_nan x -> nle (Fin 0) k = true -> nonneg_or_nan (nmul x k).
Proof.
  intros Hx Hk.
  destruct k as [c | | |]; try discriminate;
    [cbn [nle] in Hk; apply Qc_leb_spec in Hk |];
    destruct x as [a | | |]; cbn [nonneg_or_nan nmul nsign] in *;
    try contradiction; auto.
  - apply Qcmult_nonneg; assumption.
  - pose proof (Qc_cmp_nonneg c Hk). destruct (c ?= 0); cbn; auto.
  - pose proof (Qc_cmp_nonneg a Hx). destruct (a ?= 0); cbn; auto.
Qed.

Lemma nsqrt_nonneg (sqrt : Qc -> Qc) (Hsqrt : forall q, 0 <= q -> 0 <= sqrt q)
  (x : num) : nonneg_or_nan (nsqrt sqrt x).
Proof.
  destruct x as [a | | |]; cbn; auto.
  destruct (Qc_ltb a 0) eqn:E; cbn; auto.
  apply Hsqrt. destruct (Qc_dec a 0) as [[Hl | Hl] | Hl].
  - apply Qc_ltb_spec in Hl. congruence.
  - apply Qclt_le_weak. exact Hl.
  - subst a. apply Qcle_refl.
Qed.

Lemma nadd_nonneg_ge (m p : num) :
  nonneg_or_nan p -> is_obs (nadd m p) = true -> nle m (nadd m p) = true.
Proof.
  intros Hp Ho.
  destruct m as [a | | |], p as [b | | |]; cbn in *; try discriminate; auto.
  apply Qc_leb_spec. replace a with (a + 0) at 1 by ring.
  apply Qcplus_le_compat; [apply Qcle_refl | exact Hp].
Qed.

Lemma nsub_nonneg_le (m p : num) :
  nonneg_or_nan p -> is_obs (nsub m p) = true -> nle (nsub m p) m = true.
Proof.
  intros Hp Ho.
  destruct m as [a | | |], p as [b | | |]; cbn in *; try discriminate; auto.
  apply Qc_leb_spec, Qcle_minus_iff.
  replace (a + - (a + - b)) with b by ring. exact Hp.
Qed.

Lemma rolling_mean_length (w : Z) (s e : list num) :
  rolling_mean w s = inr e -> length e = length s.
Proof.
  unfold rolling_mean, rolling_check, bind.
  destruct (w <? 0)%Z; intro H; inversion H. apply rolling_apply_length.
Qed.

Lemma rolling_std_length (sqrt : Qc -> Qc) (w : Z) (s e : list num) :
  rolling_std sqrt w s = inr e -> length e = length s.
Proof.
  unfold rolling_std, rolling_check, bind.
  destruct (w <? 0)%Z; intro H; inversion H.
  rewrite length_map. apply rolling_apply_length.
Qed.

Lemma nth_map_nan (f : num -> num) (l : list num) (i : nat) :
  f NaN = NaN -> nth i (map f l) NaN = f (nth i l NaN).
Proof.
  intro Hf. revert i; induction l as [| x l IH]; intros [| i]; simpl; auto.
Qed.

Lemma nth_map_all {A B} (P : B -> Prop) (f : A -> B) (l : list A) (d : B) (i : nat) :
  (forall x, P (f x)) -> P d -> P (nth i (map f l) d).
Proof.
  intros Hf Hd. revert i; induction l as [| x l IH]; intros [| i]; simpl; auto.
Qed.

Lemma rolling_std_nonneg (sqrt : Qc -> Qc) (Hsqrt : forall q, 0 <= q -> 0 <= sqrt q)
  (w : Z) (s e : list num) (i : nat) :
  rolling_std sqrt w s = inr e -> nonneg_or_nan (nth i e NaN).
Proof.
  unfold rolling_std, rolling_check, bind.
  destruct (w <? 0)%Z; intro H; inversion H; subst e.
  apply nth_map_all; [apply nsqrt_nonneg; exact Hsqrt | exact I].
Qed.

(** ** C5: ordering of the bands *)

(** C5: for any square root that is non-negative on non-negative values, any
    series, window and multiplier [k >= 0], when [calculate_bollinger_bands]
    returns, the middle band is the SMA, the bands are
    [middle +- std * k] with [std] the rolling (sample, [n - 1]) standard
    deviation over the same window, and at every position where the three
    bands are defined (not NaN), [upper >= middle >= lower]. *)
Theorem bollinger_bands_ordered (sqrt : Qc -> Qc)
  (Hsqrt : forall q, 0 <= q -> 0 <= sqrt q)
  (data : list num) (window : Z) (k : num) (upper middle lower : list num) :
  nle (Fin 0) k = true ->
  Calc.calculate_bollinger_bands sqrt data window k = inr (upper, middle, lower) ->
  Calc.calculate_sma data window = inr middle /\
  (exists std : list num,
     rolling_std sqrt window data = inr std /\
     upper = map2 nadd middle (map (fun s => nmul s k) std) /\
     lower = map2 nsub middle (map (fun s => nmul s k) std)) /\
  (forall i : nat,
     is_obs (nth i upper NaN) = true ->
     is_obs (nth i middle NaN) = true ->
     is_obs (nth i lower NaN) = true ->
     nle (nth i middle NaN) (nth i upper NaN) = true /\
     nle (nth i lower NaN) (nth i middle NaN) = true).
Proof.
  intros Hk H.
  unfold Calc.calculate_bollinger_bands, bind in H.
  destruct (rolling_mean window data) as [e | m] eqn:Em; [discriminate |].
  destruct (rolling_std sqrt window data) as [e | sd] eqn:Es; [discriminate |].
  inversion H; subst upper middle lower; clear H.
  apply rolling_mean_length in Em as Lm.
  apply rolling_std_length in Es as Ls.
  split; [exact Em |]. split; [exists sd; auto |].
  intros i Hu _ Hl.
  assert (Lk : length m = length (map (fun s => nmul s k) sd))
    by (rewrite length_map; lia).
  rewrite (map2_nth_eq nadd _ _ i NaN NaN NaN Lk eq_refl) in *.
  rewrite (map2_nth_eq nsub _ _ i NaN NaN NaN Lk eq_refl) in *.
  assert (Hp : nonneg_or_nan (nth i (map (fun s => nmul s k) sd) NaN)).
  { rewrite nth_map_nan by (destruct k; reflexivity).
    apply nmul_nonneg; [eapply rolling_std_nonneg; eauto | exact Hk]. }
  split; [apply nadd_nonneg_ge | apply nsub_nonneg_le]; assumption.
Qed.

Lemma bollinger_bands_ordered_witness :
  let data := [Fin 1; Fin (Qc_of_Z 3); Fin (Qc_of_Z 2)] in
  match Calc.calculate_bollinger_bands isqrt_floor data 2 (Fin (Qc_of_Z 2)) with
  | inr (upper, middle, lower) =>
      (forall q, 0 <= q -> 0 <= isqrt_floor q) /\
      nle (Fin 0) (Fin (Qc_of_Z 2)) = true /\
      Calc.calculate_bollinger_bands isqrt_floor data 2 (Fin (Qc_of_Z 2))
        = inr (upper, middle, lower) /\
      (Calc.calculate_sma data 2 = inr middle /\
       (exists std : list num,
          rolling_std isqrt_floor 2 data = inr std /\
          upper = map2 nadd middle (map (fun s => nmul s (Fin (Qc_of_Z 2))) std) /\
          lower = map2 nsub middle (map (fun s => nmul s (Fin (Qc_of_Z 2))) std)) /\
       (forall i : nat,
          is_obs (nth i upper NaN) = true ->
          is_obs (nth i middle NaN) = true ->
          is_obs (nth i lower NaN) = true ->
          nle (nth i middle NaN) (nth i upper NaN) = true /\
          nle (nth i lower NaN) (nth i middle NaN) = true))
  | inl _ => False
  end.
Proof.
  intro data.
  destruct (Calc.calculate_bollinger_bands isqrt_floor data 2 (Fin (Qc_of_Z 2)))
    as [e | [[u m] l]] eqn:E.
  - vm_compute in E. discriminate.
  - assert (Hk : nle (Fin 0) (Fin (Qc_of_Z 2)) = true) by (vm_compute; reflexivity).
    split; [exact isqrt_floor_nonneg |]. split; [exact Hk |].
    split; [reflexivity |].
    exact (bollinger_bands_ordered isqrt_floor isqrt_floor_nonneg data 2
             (Fin (Qc_of_Z 2)) u m l Hk E).
Defined.

(** * The crossover loop of calc.py *)

Lemma set_nth_length {A} (l : list A) (i : nat) (v : A) :
  length (set_nth l i v) = length l.
Proof. revert i; induction l; intros [| i]; simpl; auto. Qed.

Lemma set_nth_nth {A} (l : list A) (i j : nat) (v d : A) :
  (i < length l)%nat ->
  nth j (set_nth l i v) d = if Nat.eqb i j then v else nth j l d.
Proof.
  revert i j; induction l as [| x l IH]; intros i j Hi; simpl in Hi; [lia |].
  destruct i, j; simpl; auto.
  apply IH. lia.
Qed.

(** Case analysis on the [<=?] and [<?] tests of a goal. *)
Ltac nat_cmp_cases :=
  repeat match goal with
  | |- context [Nat.leb ?x ?y] => destruct (Nat.leb_spec x y)
  | |- context [Nat.ltb ?x ?y] => destruct (Nat.ltb_spec x y)
  end.

(** After the loop has run over [start .. start+len-1], a signal Series
    holds [close[j]] exactly where [j] was visited and its test held. *)
Lemma cross_fold (a b c : list num) (len : nat) : forall (start : nat) (B Sl : list num),
  length B = length c -> length Sl = length c -> (start + len <= length c)%nat ->
  let '(B', S') := fold_left (CalcVwap.cross_body a b c) (seq start len) (B, Sl) in
  length B' = length c /\ length S' = length c /\
  (forall j, nth j B' NaN =
     if (start <=? j)%nat && (j <? start + len)%nat && CalcVwap.buy_cross a b j
     then iloc c j else nth j B NaN) /\
  (forall j, nth j S' NaN =
     if (start <=? j)%nat && (j <? start + len)%nat && CalcVwap.sell_cross a b j
     then iloc c j else nth j Sl NaN).
Proof.
  induction len as [| len IH]; intros start B Sl HB HS Hn.
  - cbn [seq fold_left]. repeat split; auto; intro j;
      replace ((start <=? j)%nat && (j <? start + 0)%nat) with false
        by (destruct (Nat.leb_spec start j), (Nat.ltb_spec j (start + 0));
            auto; lia);
      reflexivity.
  - cbn [seq fold_left].
    set (B1 := if CalcVwap.buy_cross a b start
               then set_nth B start (iloc c start) else B).
    set (S1 := if CalcVwap.sell_cross a b start
               then set_nth Sl start (iloc c start) else Sl).
    change (CalcVwap.cross_body a b c (B, Sl) start) with (B1, S1).
    assert (LB1 : length B1 = length c)
      by (unfold B1; destruct (CalcVwap.buy_cross a b start);
          rewrite ?set_nth_length; auto).
    assert (LS1 : length S1 = length c)
      by (unfold S1; destruct (CalcVwap.sell_cross a b start);
          rewrite ?set_nth_length; auto).
    specialize (IH (S start) B1 S1 LB1 LS1 ltac:(lia)).
    destruct (fold_left _ (seq (S start) len) (B1, S1)) as [B' S'].
    destruct IH as [L1 [L2 [HB' HS']]].
    repeat split; auto; intro j; [rewrite HB' | rewrite HS'];
      [unfold B1 | unfold S1];
      [destruct (CalcVwap.buy_cross a b start) eqn:Ec
      | destruct (CalcVwap.sell_cross a b start) eqn:Ec];
      rewrite ?set_nth_nth by lia;
      (destruct (Nat.eqb_spec start j) as [E | Hne]; [subst start | ]);
      rewrite ?Ec; nat_cmp_cases;
      cbn [andb]; try lia; try reflexivity.
Qed.

Lemma detect_crossovers_nth (a b c : list num) :
  let '(buy, sell) := CalcVwap.detect_crossovers a b c in
  length buy = length c /\ length sell = length c /\
  (forall j, nth j buy NaN =
     if (1 <=? j)%nat && (j <? length c)%nat && CalcVwap.buy_cross a b j
     then iloc c j else NaN) /\
  (forall j, nth j sell NaN =
     if (1 <=? j)%nat && (j <? length c)%nat && CalcVwap.sell_cross a b j
     then iloc c j else NaN).
Proof.
  unfold CalcVwap.detect_crossovers.
  destruct (length c) as [| n] eqn:Hn.
  - cbn. repeat split; intro j; destruct j; reflexivity.
  - pose proof (cross_fold a b c (S n - 1) 1 (repeat NaN (S n)) (repeat NaN (S n)))
      as H.
    rewrite repeat_length, Hn in H.
    specialize (H eq_refl eq_refl ltac:(lia)).
    destruct (fold_left _ _ _) as [B Sl].
    destruct H as [L1 [L2 [HB HS]]].
    replace (1 + (S n - 1))%nat with (S n) in * by lia.
    repeat split; auto; intro j; [rewrite HB | rewrite HS];
      destruct (_ && _ && _); auto; apply nth_repeat.
Qed.

Lemma nlt_asym (x y : num) : nlt x y = true -> nlt y x = false.
Proof.
  intro H. destruct x as [a | | |], y as [b | | |]; cbn in *; auto; try discriminate.
  apply Qc_ltb_spec in H.
  destruct (Qc_ltb b a) eqn:E; auto.
  apply Qc_ltb_spec in E. exfalso.
  apply (Qcle_not_lt b a); [apply Qclt_le_weak; exact E | exact H].
Qed.

Lemma cross_excl (a b : list num) (i : nat) :
  CalcVwap.buy_cross a b i && CalcVwap.sell_cross a b i = false.
Proof.
  unfold CalcVwap.buy_cross, CalcVwap.sell_cross, ngt.
  destruct (nlt (iloc b i) (iloc a i)) eqn:E.
  - rewrite (nlt_asym _ _ E). destruct (nle _ _), (nge _ _); reflexivity.
  - destruct (nle _ _); reflexivity.
Qed.

Lemma nle_nan_l (y : num) : nle NaN y = false. Proof. reflexivity. Qed.
Lemma nle_nan_r (x : num) : nle x NaN = false. Proof. destruct x; reflexivity. Qed.
Lemma nlt_nan_l (y : num) : nlt NaN y = false. Proof. reflexivity. Qed.
Lemma nlt_nan_r (x : num) : nlt x NaN = false. Proof. destruct x; reflexivity. Qed.

Lemma is_obs_false (x : num) : is_obs x = false -> x = NaN.
Proof. destruct x; cbn; congruence. Qed.

Lemma cross_undefined (a b : list num) (i : nat) :
  is_obs (iloc a (i - 1)) && is_obs (iloc b (i - 1)) &&
  is_obs (iloc a i) && is_obs (iloc b i) = false ->
  CalcVwap.buy_cross a b i = false /\ CalcVwap.sell_cross a b i = false.
Proof.
  unfold CalcVwap.buy_cross, CalcVwap.sell_cross, ngt, nge.
  intro H.
  destruct (is_obs (iloc a (i - 1))) eqn:E1;
    [destruct (is_obs (iloc b (i - 1))) eqn:E2;
     [destruct (is_obs (iloc a i)) eqn:E3;
      [destruct (is_obs (iloc b i)) eqn:E4; [discriminate |] | ] | ] | ];
    repeat match goal with
    | E : is_obs _ = false |- _ => apply is_obs_false in E; rewrite E; clear E
    end;
    rewrite ?nle_nan_l, ?nle_nan_r, ?nlt_nan_l, ?nlt_nan_r, ?andb_false_r;
    auto.
Qed.

Lemma iloc_obs_lt (l : list num) (i : nat) :
  is_obs (iloc l i) = true -> (i < length l)%nat.
Proof.
  unfold iloc. intro H. destruct (Nat.lt_ge_cases i (length l)) as [Hl | Hl]; auto.
  rewrite nth_overflow in H by exact Hl. discriminate.
Qed.

(** ** C6: events of the crossover detector *)

(** C6: the crossover loop of calc.py, run on two series [a], [b] and the
    prices [close], records no event at index 0, never records both a buy
    and a sell at one index, records nothing at [i] when [a] or [b] is NaN
    at [i-1] or [i], and for [1 <= i < len] records [close[i]] as a buy
    exactly when [a[i-1] <= b[i-1]] and [a[i] > b[i]], and as a sell exactly
    when [a[i-1] >= b[i-1]] and [a[i] < b[i]]; for a defined price, a buy
    (sell) event at [i] occurs iff [i >= 1] and the buy (sell) test holds. *)
Theorem crossover_detector_events (a b close : list num) :
  let '(buy, sell) := CalcVwap.detect_crossovers a b close in
  length buy = length close /\ length sell = length close /\
  nth 0 buy NaN = NaN /\ nth 0 sell NaN = NaN /\
  (forall i : nat, is_obs (nth i buy NaN) && is_obs (nth i sell NaN) = false) /\
  (forall i : nat,
     is_obs (iloc a (i - 1)) && is_obs (iloc b (i - 1)) &&
     is_obs (iloc a i) && is_obs (iloc b i) = false ->
     nth i buy NaN = NaN /\ nth i sell NaN = NaN) /\
  (forall i : nat, (1 <= i < length close)%nat ->
     nth i buy NaN =
       (if nle (iloc a (i - 1)) (iloc b (i - 1)) && ngt (iloc a i) (iloc b i)
        then iloc close i else NaN) /\
     nth i sell NaN =
       (if nge (iloc a (i - 1)) (iloc b (i - 1)) && nlt (iloc a i) (iloc b i)
        then iloc close i else NaN)) /\
  (forall i : nat, is_obs (iloc close i) = true ->
     (is_obs (nth i buy NaN) = true <->
        (1 <= i)%nat /\ nle (iloc a (i - 1)) (iloc b (i - 1)) = true /\
        ngt (iloc a i) (iloc b i) = true) /\
     (is_obs (nth i sell NaN) = true <->
        (1 <= i)%nat /\ nge (iloc a (i - 1)) (iloc b (i - 1)) = true /\
        nlt (iloc a i) (iloc b i) = true)).
Proof.
  pose proof (detect_crossovers_nth a b close) as H.
  destruct (CalcVwap.detect_crossovers a b close) as [buy sell].
  destruct H as [L1 [L2 [HB HS]]].
  split; [exact L1 |]. split; [exact L2 |].
  split; [rewrite HB; reflexivity |]. split; [rewrite HS; reflexivity |].
  split.
  { intro i. rewrite HB, HS. pose proof (cross_excl a b i) as Ex.
    destruct (CalcVwap.buy_cross a b i), (CalcVwap.sell_cross a b i);
      try discriminate; rewrite ?andb_true_r, ?andb_false_r; cbn;
      rewrite ?andb_false_r; reflexivity. }
  split.
  { intros i Hu. destruct (cross_undefined a b i Hu) as [E1 E2].
    rewrite HB, HS, E1, E2, !andb_false_r. split; reflexivity. }
  split.
  { intros i Hi. rewrite HB, HS.
    replace ((1 <=? i)%nat && (i <? length close)%nat) with true
      by (nat_cmp_cases; auto; lia).
    split; reflexivity. }
  intros i Hc. pose proof (iloc_obs_lt close i Hc) as Hi.
  rewrite HB, HS.
  replace (i <? length close)%nat with true by (nat_cmp_cases; auto; lia).
  unfold CalcVwap.buy_cross, CalcVwap.sell_cross.
  split; split.
  - destruct (1 <=? i)%nat eqn:E1, (nle _ _), (ngt _ _); cbn;
      intro H; try discriminate; repeat split; auto.
    apply Nat.leb_le; exact E1.
  - intros [H1 [H2 H3]]. rewrite H2, H3.
    replace (1 <=? i)%nat with true by (symmetry; apply Nat.leb_le; exact H1).
    exact Hc.
  - destruct (1 <=? i)%nat eqn:E1, (nge _ _), (nlt _ _); cbn;
      intro H; try discriminate; repeat split; auto.
    apply Nat.leb_le; exact E1.
  - intros [H1 [H2 H3]]. rewrite H2, H3.
    replace (1 <=? i)%nat with true by (symmetry; apply Nat.leb_le; exact H1).
    exact Hc.
Qed.

(** The example of the spec: [a = [1;2;3;4]], [b = [4;3;2;1]] gives one buy
    event, at index 2, and no sell event. *)
Example crossover_spec_example :
  CalcVwap.detect_crossovers
    (map (fun z => Fin (Qc_of_Z z)) [1; 2; 3; 4]%Z)
    (map (fun z => Fin (Qc_of_Z z)) [4; 3; 2; 1]%Z)
    (map (fun z => Fin (Qc_of_Z z)) [10; 20; 30; 40]%Z)
  = ([NaN; NaN; Fin (Qc_of_Z 30); NaN], [NaN; NaN; NaN; NaN]).
Proof. vm_compute. reflexivity. Qed.

(** * VWAP *)

Lemma cumsum_from_length (s : list num) : forall acc, length (cumsum_from acc s) = length s.
Proof. induction s; intros; simpl; [| destruct (is_obs a); simpl]; auto. Qed.

Lemma cumsum_from_fin (l : list Qc) : forall (a : Qc) (i : nat),
  (i < length l)%nat ->
  nth i (cumsum_from (Fin a) (map Fin l)) NaN = Fin (a + qsum (firstn (S i) l)).
Proof.
  induction l as [| x t IH]; intros a i Hi; simpl in Hi; [lia |].
  cbn [map cumsum_from is_obs nadd].
  destruct i as [| j].
  - cbn. f_equal. unfold qsum; simpl. ring.
  - cbn [nth]. rewrite IH by lia. f_equal. unfold qsum; simpl. ring.
Qed.

Lemma qsum_cons (x : Qc) (l : list Qc) : qsum (x :: l) = x + qsum l.
Proof. reflexivity. Qed.

Lemma qsum_nonneg (l : list Qc) : Forall (fun x => 0 <= x) l -> 0 <= qsum l.
Proof.
  induction 1 as [| x l Hx _ IH]; [apply Qcle_refl |].
  rewrite qsum_cons. replace 0 with (0 + 0) by ring.
  apply Qcplus_le_compat; assumption.
Qed.

Lemma Qc_add_nonneg_zero (x y : Qc) : 0 <= x -> 0 <= y -> x + y = 0 -> x = 0 /\ y = 0.
Proof.
  intros Hx Hy E.
  assert (Hx' : x <= 0).
  { rewrite <- E. replace x with (x + 0) at 1 by ring.
    apply Qcplus_le_compat; [apply Qcle_refl | exact Hy]. }
  assert (Hy' : y <= 0).
  { rewrite <- E. replace y with (0 + y) at 1 by ring.
    apply Qcplus_le_compat; [exact Hx | apply Qcle_refl]. }
  split; apply Qcle_antisym; assumption.
Qed.

Lemma finite_bar_vals (b : bar) : finite_bar b ->
  High b = Fin (qv (High b)) /\ Low b = Fin (qv (Low b)) /\
  Close b = Fin (qv (Close b)) /\ Volume b = Fin (qv (Volume b)) /\
  0 <= qv (Volume b).
Proof.
  intros (h & l & c & v & Hh & Hl & Hc & Hv & Hnn).
  rewrite Hh, Hl, Hc, Hv. cbn. auto.
Qed.

Lemma typical_price_fin (b : bar) : finite_bar b ->
  nmul (CalcVwap.typical_price b) (Volume b) =
  Fin (typical_q b * qv (Volume b)).
Proof.
  intro Hb. destruct (finite_bar_vals b Hb) as (Hh & Hl & Hc & Hv & _).
  unfold CalcVwap.typical_price, typical_q.
  rewrite Hh, Hl, Hc, Hv. cbn [nadd qv].
  rewrite ndiv_fin by (apply Qc_of_Z_neq0; lia). reflexivity.
Qed.

Lemma map_fin_bars (f : bar -> num) (g : bar -> Qc) (df : list bar) :
  Forall finite_bar df -> (forall b, finite_bar b -> f b = Fin (g b)) ->
  map f df = map Fin (map g df).
Proof.
  intros Hdf Hfg. induction Hdf as [| b df Hb _ IH]; [reflexivity |].
  cbn [map]. rewrite Hfg, IH by exact Hb. reflexivity.
Qed.

(** When the cumulative volume of well-formed bars is 0, so is the
    cumulative price-volume. *)
Lemma zero_volume_prefix (df : list bar) : Forall finite_bar df ->
  qsum (map (fun b => qv (Volume b)) df) = 0 ->
  qsum (map (fun b => typical_q b * qv (Volume b)) df) = 0.
Proof.
  induction 1 as [| b df Hb Hdf IH]; intro E; [reflexivity |].
  cbn [map] in *. rewrite qsum_cons in *.
  destruct (finite_bar_vals b Hb) as (_ & _ & _ & _ & Hv).
  assert (Hrest : 0 <= qsum (map (fun b => qv (Volume b)) df)).
  { apply qsum_nonneg. apply Forall_map.
    eapply Forall_impl; [| exact Hdf]. intros x Hx.
    apply (finite_bar_vals x Hx). }
  destruct (Qc_add_nonneg_zero _ _ Hv Hrest E) as [E1 E2].
  rewrite E1, IH by exact E2. ring.
Qed.

Lemma Forall_firstn_pre {A} (P : A -> Prop) (n : nat) (l : list A) :
  Forall P l -> Forall P (firstn n l).
Proof.
  revert l; induction n as [| n IH]; intros l Hl; [constructor |].
  destruct Hl; cbn; constructor; auto.
Qed.

Lemma zero_volumes_sum (df : list bar) :
  Forall (fun b => Volume b = Fin 0) df -> qsum (map (fun b => qv (Volume b)) df) = 0.
Proof.
  induction 1 as [| b df Hb _ IH]; [reflexivity |].
  cbn [map]. rewrite qsum_cons, IH, Hb. cbn [qv]. ring.
Qed.

Lemma calculate_vwap_length (df : list bar) :
  length (CalcVwap.calculate_vwap df) = length df.
Proof.
  unfold CalcVwap.calculate_vwap, cumsum.
  rewrite map2_length, !cumsum_from_length, !length_map. lia.
Qed.

(** ** C7: VWAP as a cumulative ratio *)

(** C7: for well-formed bars (finite prices, volume >= 0), VWAP at [i] is
    the cumulative sum over [0 .. i] of [typical_price * volume] divided by
    the cumulative volume over [0 .. i], with
    [typical_price = (high + low + close) / 3]; where the cumulative volume
    is 0 it is NaN (undefined), so a series with zero volume everywhere has
    VWAP NaN at every index. *)
Theorem vwap_cumulative_ratio (df : list bar) :
  Forall finite_bar df ->
  length (CalcVwap.calculate_vwap df) = length df /\
  (forall i : nat, (i < length df)%nat ->
     let pv := qsum (firstn (S i) (map (fun b => typical_q b * qv (Volume b)) df)) in
     let vol := qsum (firstn (S i) (map (fun b => qv (Volume b)) df)) in
     (vol <> 0 -> nth i (CalcVwap.calculate_vwap df) NaN = Fin (pv / vol)) /\
     (vol = 0 -> nth i (CalcVwap.calculate_vwap df) NaN = NaN)) /\
  (Forall (fun b => Volume b = Fin 0) df ->
     forall i : nat, nth i (CalcVwap.calculate_vwap df) NaN = NaN).
Proof.
  intro Hdf.
  assert (Hpt : forall i : nat, (i < length df)%nat ->
     let pv := qsum (firstn (S i) (map (fun b => typical_q b * qv (Volume b)) df)) in
     let vol := qsum (firstn (S i) (map (fun b => qv (Volume b)) df)) in
     (vol <> 0 -> nth i (CalcVwap.calculate_vwap df) NaN = Fin (pv / vol)) /\
     (vol = 0 -> nth i (CalcVwap.calculate_vwap df) NaN = NaN)).
  { intros i Hi pv vol.
    unfold CalcVwap.calculate_vwap, cumsum.
    rewrite (map_fin_bars _ (fun b => typical_q b * qv (Volume b)) df Hdf
               typical_price_fin).
    rewrite (map_fin_bars Volume (fun b => qv (Volume b)) df Hdf
               (fun b Hb => proj1 (proj2 (proj2 (proj2 (finite_bar_vals b Hb)))))).
    rewrite (map2_nth ndiv _ _ i NaN NaN NaN)
      by (rewrite cumsum_from_length, !length_map; exact Hi).
    rewrite !cumsum_from_fin by (rewrite length_map; exact Hi).
    fold pv vol. rewrite !Qcplus_0_l. split.
    - intro Hv. apply ndiv_fin. exact Hv.
    - intro Hv. assert (Hp : pv = 0).
      { unfold pv. rewrite firstn_map.
        apply zero_volume_prefix; [apply Forall_firstn_pre; exact Hdf |].
        rewrite <- firstn_map. exact Hv. }
      rewrite Hp, Hv. reflexivity. }
  split; [apply calculate_vwap_length |]. split; [exact Hpt |].
  intros Hz i.
  destruct (Nat.lt_ge_cases i (length df)) as [Hi | Hi].
  - apply (proj2 (Hpt i Hi)).
    rewrite firstn_map. apply zero_volumes_sum, Forall_firstn_pre, Hz.
  - apply nth_overflow. rewrite calculate_vwap_length. exact Hi.
Qed.

Lemma vwap_cumulative_ratio_witness :
  let df := [mkBar NaN (Fin (Qc_of_Z 3)) (Fin 1) (Fin (Qc_of_Z 2)) (Fin 0);
             mkBar NaN (Fin (Qc_of_Z 4)) (Fin (Qc_of_Z 2)) (Fin (Qc_of_Z 3))
                   (Fin (Qc_of_Z 10))] in
  Forall finite_bar df /\
  length (CalcVwap.calculate_vwap df) = length df /\
  (forall i : nat, (i < length df)%nat ->
     let pv := qsum (firstn (S i) (map (fun b => typical_q b * qv (Volume b)) df)) in
     let vol := qsum (firstn (S i) (map (fun b => qv (Volume b)) df)) in
     (vol <> 0 -> nth i (CalcVwap.calculate_vwap df) NaN = Fin (pv / vol)) /\
     (vol = 0 -> nth i (CalcVwap.calculate_vwap df) NaN = NaN)) /\
  (Forall (fun b => Volume b = Fin 0) df ->
     forall i : nat, nth i (CalcVwap.calculate_vwap df) NaN = NaN).
Proof.
  intro df.
  assert (Hdf : Forall finite_bar df).
  { repeat constructor; do 4 eexists; repeat split;
      apply Qc_of_Z_nonneg || apply Qcle_refl; lia. }
  split; [exact Hdf | exact (vwap_cumulative_ratio df Hdf)].
Defined.

(** * Parameter errors and totality *)

Lemma map_seq_nan (g : nat -> num) (n : nat) : forall a : nat,
  (forall i, (a <= i < a + n)%nat -> g i = NaN) -> map g (seq a n) = repeat NaN n.
Proof.
  induction n as [| n IH]; intros a Hg; [reflexivity |].
  cbn [seq map repeat]. rewrite Hg by lia. f_equal. apply IH. intros i Hi. apply Hg. lia.
Qed.

(** A window wider than the observations it can hold gives NaN everywhere. *)
Lemma rolling_mean_all_nan (s : list num) (n : nat) :
  (length s < n)%nat \/ n = 0%nat ->
  rolling_apply (roll_mean_at n) n s = repeat NaN (length s).
Proof.
  intro Hn. unfold rolling_apply. apply map_seq_nan. intros i Hi.
  unfold roll_mean_at.
  pose proof (filter_length_le is_obs (win s n i)) as Hf.
  assert (Hw : (length (win s n i) <= S i)%nat)
    by (unfold win; rewrite length_firstn; lia).
  destruct Hn as [Hn | ->].
  - replace (n <=? length (filter is_obs (win s n i)))%nat with false
      by (symmetry; apply Nat.leb_gt; lia).
    reflexivity.
  - unfold win. cbn. reflexivity.
Qed.

Lemma ewm_span_err (span : Z) (s : list num) : is_err (ewm_span span s) = (span <? 1)%Z.
Proof. unfold ewm_span. destruct (span <? 1)%Z; reflexivity. Qed.

Lemma ewm_com_err (com : Z) (s : list num) : is_err (ewm_com com s) = (com <? 0)%Z.
Proof. unfold ewm_com. destruct (com <? 0)%Z; reflexivity. Qed.

Lemma rolling_mean_err (w : Z) (s : list num) : is_err (rolling_mean w s) = (w <? 0)%Z.
Proof. unfold rolling_mean, rolling_check. destruct (w <? 0)%Z; reflexivity. Qed.

Lemma bind_err {A B} (r : result A) (k : A -> result B) :
  is_err (bind r k) = is_err r || match r with inr a => is_err (k a) | inl _ => false end.
Proof. destruct r; reflexivity. Qed.

(** ** C8 (as the code does it): which parameters raise *)

(** C8, amended: pandas' own checks are the only parameter validation.
    EMA and MACD raise [ValueError] exactly when a span/period is below 1,
    RSI exactly when its window is below 1; SMA, Bollinger Bands and the
    SMA/VWAP crossover raise exactly for a negative window/period, and a
    window of 0 is accepted and yields an all-NaN SMA.  VWAP takes no
    parameter and always returns.  So with positive parameters no engine
    raises, whatever the (finite or not) content of the series, and a window
    longer than the series yields an all-NaN SMA rather than an error. *)
Theorem engines_parameter_errors :
  (forall s w, is_err (Calc.calculate_sma s w) = (w <? 0)%Z) /\
  (forall s w, is_err (Calc.calculate_ema s w) = (w <? 1)%Z) /\
  (forall s w, is_err (Calc.calculate_rsi s w) = (w <? 1)%Z) /\
  (forall s f sl sg,
     is_err (Calc.calculate_macd s f sl sg) = ((f <? 1) || (sl <? 1) || (sg <? 1))%Z) /\
  (forall sqrt s w k,
     is_err (Calc.calculate_bollinger_bands sqrt s w k) = (w <? 0)%Z) /\
  (forall df p, is_err (CalcVwap.calculate_vwap_crossover df p) = (p <? 0)%Z) /\
  (forall s, Calc.calculate_sma s 0 = inr (repeat NaN (length s))) /\
  (forall s w, (Z.of_nat (length s) < w)%Z ->
     Calc.calculate_sma s w = inr (repeat NaN (length s))).
Proof.
  split; [intros; apply rolling_mean_err |].
  split; [intros; apply ewm_span_err |].
  split.
  { intros s w. unfold Calc.calculate_rsi, Calc.rsi_averages, ewm_com.
    destruct (Z.ltb_spec (w - 1) 0), (Z.ltb_spec w 1); try lia; reflexivity. }
  split.
  { intros s f sl sg. unfold Calc.calculate_macd.
    rewrite bind_err, ewm_span_err.
    destruct (f <? 1)%Z eqn:Ef; [reflexivity |].
    destruct (ewm_span f s) eqn:E1; [unfold ewm_span in E1; rewrite Ef in E1; discriminate |].
    rewrite bind_err, ewm_span_err. cbn [orb].
    destruct (sl <? 1)%Z eqn:Es; [reflexivity |].
    destruct (ewm_span sl s) eqn:E2; [unfold ewm_span in E2; rewrite Es in E2; discriminate |].
    rewrite bind_err, ewm_span_err. cbn [orb].
    destruct (sg <? 1)%Z eqn:Eg; [reflexivity |].
    destruct (ewm_span sg _) eqn:E3; [unfold ewm_span in E3; rewrite Eg in E3; discriminate |].
    reflexivity. }
  split.
  { intros sqrt s w k. unfold Calc.calculate_bollinger_bands, rolling_mean,
      rolling_std, rolling_check.
    destruct (w <? 0)%Z; reflexivity. }
  split.
  { intros df p. unfold CalcVwap.calculate_vwap_crossover.
    rewrite bind_err. unfold Calc.calculate_sma.
    rewrite rolling_mean_err. unfold rolling_mean, rolling_check.
    destruct (p <? 0)%Z; reflexivity. }
  split.
  { intro s. unfold Calc.calculate_sma, rolling_mean, rolling_check. cbn.
    rewrite rolling_mean_all_nan by auto. reflexivity. }
  intros s w Hw. unfold Calc.calculate_sma, rolling_mean, rolling_check.
  replace (w <? 0)%Z with false by (symmetry; apply Z.ltb_ge; lia).
  cbn [bind]. rewrite rolling_mean_all_nan by lia. reflexivity.
Qed.

(** C8 as stated fails: a zero window is non-positive, yet [calculate_sma]
    does not raise; it returns an all-NaN series. *)
Lemma sma_zero_window_no_error :
  Calc.calculate_sma [Fin 1; Fin (Qc_of_Z 2)] 0 = inr [NaN; NaN] /\
  is_err (Calc.calculate_sma [Fin 1; Fin (Qc_of_Z 2)] 0) = false.
Proof. split; vm_compute; reflexivity. Qed.

(** * The two RSI implementations *)

(** C9: the RSI of calc.py (Wilder smoothing through [ewm]) and the RSI of
    app.py (rolling means of gains and losses) differ on some input: on
    [1, 2, 1] with window 3, calc.py gives 100 at index 1 where app.py
    gives NaN. *)
Theorem rsi_implementations_diverge :
  exists (data : list num) (window : Z),
    (1 <= window)%Z /\
    Calc.calculate_rsi data window <> App.calculate_rsi data window.
Proof.
  exists [Fin 1; Fin (Qc_of_Z 2); Fin 1], 3%Z. split; [lia |].
  vm_compute. discriminate.
Qed.

(** * The two crossover implementations *)

Lemma nth_removelast (l : list num) (k : nat) :
  (S k < length l)%nat -> nth k (removelast l) NaN = nth k l NaN.
Proof.
  revert k; induction l as [| x l IH]; intros k Hk; simpl in Hk; [lia |].
  destruct l as [| y l]; simpl in Hk; [lia |].
  destruct k as [| k]; [reflexivity |].
  change (removelast (x :: y :: l)) with (x :: removelast (y :: l)).
  cbn [nth]. apply IH. simpl. lia.
Qed.

Lemma removelast_cons_length (x : num) (l : list num) :
  length (removelast (x :: l)) = length l.
Proof.
  revert x; induction l as [| y l IH]; intro x; [reflexivity |].
  change (removelast (x :: y :: l)) with (x :: removelast (y :: l)).
  cbn [length]. rewrite IH. reflexivity.
Qed.

Lemma shift1_length (l : list num) : length (shift1 l) = length l.
Proof.
  destruct l as [| x l]; [reflexivity |].
  unfold shift1. cbn [length]. rewrite removelast_cons_length. reflexivity.
Qed.

Lemma shift1_nth (l : list num) (j : nat) : (j < length l)%nat ->
  nth j (shift1 l) NaN = match j with O => NaN | S k => nth k l NaN end.
Proof.
  intro Hj. destruct l as [| x l]; [simpl in Hj; lia |].
  unfold shift1. destruct j as [| k]; [reflexivity |].
  cbn [nth]. apply nth_removelast. exact Hj.
Qed.

(** The vectorised signal of app.py, masked onto the closes, read at [j]:
    [cur] is the comparison at [j], [prev] the one at [j - 1]. *)
Lemma mask_signal_nth (cur prev : num -> num -> bool)
  (Hcur : forall y, cur NaN y = false) (Hprev : forall y, prev NaN y = false)
  (sma vwap close : list num) (j : nat) :
  length sma = length close -> length vwap = length close ->
  nth j (App.mask_prices
           (map2 andb (map2 cur sma vwap) (map2 prev (shift1 sma) (shift1 vwap)))
           close) NaN
  = if (1 <=? j)%nat && (j <? length close)%nat &&
       (prev (iloc sma (j - 1)) (iloc vwap (j - 1)) && cur (iloc sma j) (iloc vwap j))
    then iloc close j else NaN.
Proof.
  intros Ha Hb. unfold App.mask_prices.
  rewrite (map2_nth_eq _ _ _ j false NaN NaN)
    by (try reflexivity; rewrite !map2_length, !shift1_length; lia).
  rewrite (map2_nth_eq _ _ _ j false false false) by
    (try reflexivity; rewrite !map2_length, !shift1_length; lia).
  rewrite (map2_nth_eq _ _ _ j NaN NaN false) by
    (try apply Hcur; lia).
  rewrite (map2_nth_eq _ _ _ j NaN NaN false) by
    (try apply Hprev; rewrite !shift1_length; lia).
  unfold iloc. destruct (Nat.ltb_spec j (length close)) as [Hj | Hj].
  - rewrite !shift1_nth by lia.
    destruct j as [| k].
    + rewrite Hprev, andb_false_r. reflexivity.
    + cbn [Nat.leb Nat.sub andb]. rewrite Nat.sub_0_r, andb_comm. reflexivity.
  - rewrite (nth_overflow sma) by lia. rewrite Hcur, andb_false_r.
    destruct (1 <=? j)%nat; reflexivity.
Qed.

(** C10: the SMA/VWAP crossover of calc.py (a loop from the second row that
    records the close where the SMA crosses the VWAP) and the vectorised
    crossover of app.py (comparisons with the series shifted by one row)
    give the same buy and sell series, and fail on the same inputs. *)
Theorem crossover_implementations_agree (df : list bar) (sma_period : Z) :
  CalcVwap.calculate_vwap_crossover df sma_period =
  App.calculate_vwap_crossover df sma_period.
Proof.
  unfold CalcVwap.calculate_vwap_crossover, App.calculate_vwap_crossover.
  destruct (Calc.calculate_sma (closes df) sma_period) as [e | sma] eqn:Hs;
    [reflexivity |].
  unfold bind.
  assert (La : length sma = length (closes df))
    by (apply (rolling_mean_length sma_period); exact Hs).
  assert (Lb : length (CalcVwap.calculate_vwap df) = length (closes df))
    by (rewrite calculate_vwap_length; unfold closes; rewrite length_map; reflexivity).
  pose proof (detect_crossovers_nth sma (CalcVwap.calculate_vwap df) (closes df)) as H.
  destruct (CalcVwap.detect_crossovers _ _ _) as [B Sl].
  destruct H as [L1 [L2 [HB HS]]].
  f_equal. f_equal.
  - apply nth_ext with NaN NaN.
    + unfold App.mask_prices. rewrite L1, !map2_length, !shift1_length. lia.
    + intros j _. rewrite HB, (mask_signal_nth ngt nle) by
        (try exact La; try exact Lb; intro y; try apply nlt_nan_r; reflexivity).
      reflexivity.
  - apply nth_ext with NaN NaN.
    + unfold App.mask_prices. rewrite L2, !map2_length, !shift1_length. lia.
    + intros j _. rewrite HS, (mask_signal_nth nlt nge) by
        (try exact La; try exact Lb; intro y; try apply nle_nan_r; reflexivity).
      reflexivity.
Qed.

(** * The chart callback and the data fetch of app.py *)

Definition macd_unpack_error : Py.exn :=
  Py.ValueError "too many values to unpack (expected 2)".

Lemma has_In (l : list String.string) (x : String.string) :
  App.has l x = true <-> In x l.
Proof.
  unfold App.has. rewrite existsb_exists. split.
  - intros (y & Hy & E). apply String.eqb_eq in E. subst. exact Hy.
  - intro H. exists x. split; [exact H | apply String.eqb_refl].
Qed.

Lemma add_indicator_macd (sqrt : Qc -> Qc) (df : list bar) (t : list App.trace) :
  App.add_indicator sqrt df t "macd" = inl macd_unpack_error.
Proof. reflexivity. Qed.

Lemma add_indicator_ok (sqrt : Qc -> Qc) (df : list bar) (t : list App.trace)
  (ind : String.string) : ind <> "macd" ->
  exists t', App.add_indicator sqrt df t ind = inr (t ++ t') /\
             map App.trace_name t' = indicator_names ind.
Proof.
  intro Hm. unfold App.add_indicator, App.when_ind, indicator_names.
  destruct (String.eqb_spec ind "sma50") as [-> | H1];
    [eexists; split; reflexivity |].
  destruct (String.eqb_spec ind "sma200") as [-> | H2];
    [eexists; split; reflexivity |].
  destruct (String.eqb_spec ind "ema50") as [-> | H3];
    [eexists; split; reflexivity |].
  destruct (String.eqb_spec ind "ema200") as [-> | H4];
    [eexists; split; reflexivity |].
  destruct (String.eqb_spec ind "rsi") as [-> | H5];
    [eexists; split; reflexivity |].
  destruct (String.eqb_spec ind "macd") as [-> | H6]; [contradiction |].
  destruct (String.eqb_spec ind "bbands") as [-> | H7];
    [eexists; split; reflexivity |].
  destruct (String.eqb_spec ind "vwap") as [-> | H8].
  - eexists; split; [cbn; rewrite <- !app_assoc; reflexivity | reflexivity].
  - exists []. rewrite app_nil_r. split; reflexivity.
Qed.

Lemma fold_add_err (sqrt : Qc -> Qc) (df : list bar) (inds : list String.string)
  (e : Py.exn) :
  fold_left (fun acc indicator =>
               Py.pbind acc (fun traces => App.add_indicator sqrt df traces indicator))
    inds (inl e) = inl e.
Proof. induction inds as [| i inds IH]; [reflexivity | exact IH]. Qed.

Lemma fold_add_macd (sqrt : Qc -> Qc) (df : list bar) (inds : list String.string) :
  In "macd" inds -> forall t,
  fold_left (fun acc indicator =>
               Py.pbind acc (fun traces => App.add_indicator sqrt df traces indicator))
    inds (inr t) = inl macd_unpack_error.
Proof.
  induction inds as [| i inds IH]; intros Hin t; [destruct Hin |].
  cbn [fold_left Py.pbind].
  destruct (String.eqb_spec i "macd") as [-> | Hi].
  - rewrite add_indicator_macd. apply fold_add_err.
  - destruct Hin as [-> | Hin]; [contradiction |].
    destruct (add_indicator_ok sqrt df t i Hi) as (t' & -> & _).
    apply IH. exact Hin.
Qed.

Lemma fold_add_ok (sqrt : Qc -> Qc) (df : list bar) (inds : list String.string) :
  ~ In "macd" inds -> forall t, exists t',
  fold_left (fun acc indicator =>
               Py.pbind acc (fun traces => App.add_indicator sqrt df traces indicator))
    inds (inr t) = inr (t ++ t') /\
  map App.trace_name t' = concat (map indicator_names inds).
Proof.
  induction inds as [| i inds IH]; intros Hin t.
  - exists []. rewrite app_nil_r. split; reflexivity.
  - assert (Hi : i <> "macd") by (intro E; apply Hin; left; congruence).
    assert (Hr : ~ In "macd" inds) by (intro H; apply Hin; right; exact H).
    cbn [fold_left Py.pbind].
    destruct (add_indicator_ok sqrt df t i Hi) as (t1 & -> & N1).
    destruct (IH Hr (t ++ t1)) as (t2 & E2 & N2).
    exists (t1 ++ t2). rewrite E2, app_assoc. split; [reflexivity |].
    rewrite map_app, N1, N2. reflexivity.
Qed.

(** X1: [update_chart] raises [ValueError] (it unpacks the three series
    [calculate_macd] returns into two names) whenever ['macd'] is among the
    selected indicators and the data was fetched, whatever the data and the
    other indicators; the exception is not caught. *)
Theorem update_chart_macd_raises (sqrt : Qc -> Qc)
  (fetch : String.string -> String.string -> String.string -> Py.pres (list bar))
  (symbol start_date end_date : String.string) (indicators : list String.string)
  (df : list bar) :
  fetch symbol start_date end_date = inr df -> In "macd" indicators ->
  App.update_chart sqrt fetch symbol start_date end_date indicators =
  inl (Py.ValueError "too many values to unpack (expected 2)").
Proof.
  intros Hf Hm. unfold App.update_chart. rewrite Hf.
  rewrite (fold_add_macd sqrt df indicators Hm). reflexivity.
Qed.

Lemma update_chart_macd_raises_witness :
  let df := [mkBar (Fin 1) (Fin (Qc_of_Z 2)) (Fin 1) (Fin 1) (Fin (Qc_of_Z 10))] in
  let fetch := fun (_ _ _ : String.string) => (inr df : Py.pres (list bar)) in
  (fetch "AAPL" "2024-01-01" "2024-06-01" = inr df /\ In "macd" ["sma50"; "macd"]) /\
  App.update_chart isqrt_floor fetch "AAPL" "2024-01-01" "2024-06-01" ["sma50"; "macd"] =
  inl (Py.ValueError "too many values to unpack (expected 2)").
Proof.
  intros df fetch. split; [split; [reflexivity | right; left; reflexivity] |].
  apply (update_chart_macd_raises isqrt_floor fetch _ _ _ _ df);
    [reflexivity | right; left; reflexivity].
Defined.

Lemma indicator_names_no_macd (inds : list String.string) (n : String.string) :
  ~ In "macd" inds -> In n (concat (map indicator_names inds)) ->
  n <> "MACD" /\ n <> "Signal".
Proof.
  intros Hm Hn. apply in_concat in Hn. destruct Hn as (l & Hl & Hn).
  apply in_map_iff in Hl. destruct Hl as (i & <- & Hi).
  assert (Him : i <> "macd") by (intro E; subst; contradiction).
  unfold indicator_names in Hn.
  repeat match type of Hn with
         | context [String.eqb ?a ?b] => destruct (String.eqb_spec a b)
         end;
    try contradiction; cbn in Hn; intuition (subst; discriminate).
Qed.

Lemma update_chart_traces_of (sqrt : Qc -> Qc)
  (fetch : String.string -> String.string -> String.string -> Py.pres (list bar))
  (symbol start_date end_date : String.string) (indicators : list String.string)
  (df : list bar) :
  fetch symbol start_date end_date = inr df -> ~ In "macd" indicators ->
  exists t,
    fold_left (fun acc indicator =>
                 Py.pbind acc (fun traces => App.add_indicator sqrt df traces indicator))
      indicators (inr [App.Candlestick df]) = inr (App.Candlestick df :: t) /\
    map App.trace_name t = concat (map indicator_names indicators).
Proof.
  intros _ Hm. destruct (fold_add_ok sqrt df indicators Hm [App.Candlestick df])
    as (t & E & N).
  exists t. split; [exact E | exact N].
Qed.

Lemma map_fst_pair {A B} (f : A -> B) (l : list A) :
  map fst (map (fun x => (x, f x)) l) = l.
Proof. induction l as [| x l IH]; [reflexivity | cbn; rewrite IH; reflexivity]. Qed.

(** X2: when the data was fetched and ['macd'] is not selected,
    [update_chart] returns a figure whose traces are the candlestick
    ([Price]) followed, for each selected indicator in order, by the traces
    of its [if] statement: one line for an SMA, EMA or RSI, three for
    ['bbands'], four for ['vwap'] (VWAP, SMA 9 and the buy and sell markers),
    none for an unknown value; a repeated value adds its traces again. *)
Theorem update_chart_traces (sqrt : Qc -> Qc)
  (fetch : String.string -> String.string -> String.string -> Py.pres (list bar))
  (symbol start_date end_date : String.string) (indicators : list String.string)
  (df : list bar) :
  fetch symbol start_date end_date = inr df -> ~ In "macd" indicators ->
  exists fig,
    App.update_chart sqrt fetch symbol start_date end_date indicators = inr fig /\
    map App.trace_name (figure_traces fig) =
    "Price" :: concat (map indicator_names indicators).
Proof.
  intros Hf Hm.
  destruct (update_chart_traces_of sqrt fetch symbol start_date end_date indicators df
              Hf Hm) as (t & E & N).
  unfold App.update_chart. rewrite Hf, E. cbn [Py.pbind].
  destruct (_ || _); eexists; (split; [reflexivity |]); cbn [figure_traces].
  - rewrite map_fst_pair. cbn [map]. rewrite N. reflexivity.
  - cbn [map]. rewrite N. reflexivity.
Qed.

Lemma update_chart_traces_witness :
  let df := [mkBar (Fin 1) (Fin (Qc_of_Z 2)) (Fin 1) (Fin 1) (Fin (Qc_of_Z 10))] in
  let fetch := fun (_ _ _ : String.string) => (inr df : Py.pres (list bar)) in
  (fetch "AAPL" "2024-01-01" "2024-06-01" = inr df /\ ~ In "macd" ["vwap"; "rsi"]) /\
  exists fig,
    App.update_chart isqrt_floor fetch "AAPL" "2024-01-01" "2024-06-01" ["vwap"; "rsi"]
      = inr fig /\
    map App.trace_name (figure_traces fig) =
    "Price" :: concat (map indicator_names ["vwap"; "rsi"]).
Proof.
  intros df fetch.
  assert (Hm : ~ In "macd" ["vwap"; "rsi"])
    by (cbn; intuition discriminate).
  split; [split; [reflexivity | exact Hm] |].
  apply (update_chart_traces isqrt_floor fetch _ _ _ _ df); [reflexivity | exact Hm].
Defined.

(** X3: the figure [update_chart] returns for fetched data never has the
    MACD panel: it is a two-row subplot figure (heights 0.7 and 0.3, y-axes
    "Price" and "RSI", the [RSI] trace in row 2 and every other trace in row
    1) exactly when ['rsi'] is selected, and a single plot otherwise; the
    three-row layout is never produced. *)
Theorem update_chart_layout (sqrt : Qc -> Qc)
  (fetch : String.string -> String.string -> String.string -> Py.pres (list bar))
  (symbol start_date end_date : String.string) (indicators : list String.string)
  (df : list bar) (fig : App.figure) :
  fetch symbol start_date end_date = inr df ->
  App.update_chart sqrt fetch symbol start_date end_date indicators = inr fig ->
  match fig with
  | App.SubplotFigure rows heights placed _ yaxes =>
      In "rsi" indicators /\ rows = 2%nat /\ heights = [(7#10)%Q; (3#10)%Q] /\
      yaxes = [(1%nat, "Price"); (2%nat, "RSI")] /\
      (forall t r, In (t, r) placed ->
         r = if String.eqb (App.trace_name t) "RSI" then 2%nat else 1%nat)
  | App.SingleFigure _ _ => ~ In "rsi" indicators
  | App.ErrorFigure _ => False
  end.
Proof.
  intros Hf Hu.
  assert (Hm : ~ In "macd" indicators).
  { intro Hm. unfold App.update_chart in Hu. rewrite Hf in Hu.
    rewrite (fold_add_macd sqrt df indicators Hm) in Hu. discriminate. }
  destruct (update_chart_traces_of sqrt fetch symbol start_date end_date indicators df
              Hf Hm) as (t & E & N).
  unfold App.update_chart in Hu. rewrite Hf, E in Hu. cbn [Py.pbind] in Hu.
  assert (Hmf : App.has indicators "macd" = false)
    by (destruct (App.has indicators "macd") eqn:X; [apply has_In in X; contradiction
                                                     | reflexivity]).
  rewrite Hmf in Hu. rewrite orb_false_r, andb_false_l in Hu.
  destruct (App.has indicators "rsi") eqn:Hr.
  - injection Hu as <-. apply has_In in Hr.
    split; [exact Hr |]. split; [reflexivity |]. split; [reflexivity |].
    split; [reflexivity |].
    intros tr r Hin.
    assert (Hin' : exists tr', (tr', App.row_of indicators tr') = (tr, r) /\
                               In tr' (App.Candlestick df :: t))
      by (apply in_map_iff; exact Hin).
    clear Hin. destruct Hin' as (tr' & Eq & Hin).
    injection Eq as E1 E2. subst tr r. rename tr' into tr.
    unfold App.row_of. cbn [existsb].
    destruct (String.eqb (App.trace_name tr) "RSI"); [reflexivity |].
    assert (Hn : App.trace_name tr <> "MACD" /\ App.trace_name tr <> "Signal").
    { destruct Hin as [<- | Hin]; [split; discriminate |].
      apply (indicator_names_no_macd indicators _ Hm).
      rewrite <- N. apply in_map. exact Hin. }
    destruct Hn as [H1 H2].
    apply String.eqb_neq in H1. apply String.eqb_neq in H2.
    rewrite H1, H2. reflexivity.
  - injection Hu as <-. intro Hr'. apply has_In in Hr'. congruence.
Qed.

Lemma update_chart_layout_witness :
  let df := [mkBar (Fin 1) (Fin (Qc_of_Z 2)) (Fin 1) (Fin 1) (Fin (Qc_of_Z 10))] in
  let fetch := fun (_ _ _ : String.string) => (inr df : Py.pres (list bar)) in
  match App.update_chart isqrt_floor fetch "AAPL" "2024-01-01" "2024-06-01"
          ["sma50"; "rsi"; "vwap"] with
  | inr fig =>
      (fetch "AAPL" "2024-01-01" "2024-06-01" = inr df /\
       App.update_chart isqrt_floor fetch "AAPL" "2024-01-01" "2024-06-01"
         ["sma50"; "rsi"; "vwap"] = inr fig) /\
      match fig with
      | App.SubplotFigure rows heights placed _ yaxes =>
          In "rsi" ["sma50"; "rsi"; "vwap"] /\ rows = 2%nat /\
          heights = [(7#10)%Q; (3#10)%Q] /\
          yaxes = [(1%nat, "Price"); (2%nat, "RSI")] /\
          (forall t r, In (t, r) placed ->
             r = if String.eqb (App.trace_name t) "RSI" then 2%nat else 1%nat)
      | App.SingleFigure _ _ => ~ In "rsi" ["sma50"; "rsi"; "vwap"]
      | App.ErrorFigure _ => False
      end
  | inl _ => False
  end.
Proof.
  intros df fetch.
  destruct (App.update_chart isqrt_floor fetch "AAPL" "2024-01-01" "2024-06-01"
              ["sma50"; "rsi"; "vwap"]) eqn:E;
    [vm_compute in E; discriminate |].
  split; [split; reflexivity |].
  exact (update_chart_layout isqrt_floor fetch _ _ _ _ df _ eq_refl E).
Defined.

(** ** [fetch_stock_data] *)

Section FetchFacts.

Variable http_get : nat -> String.string -> Z -> Z -> Py.pres Py.response.
Variable timestamp_of : String.string -> Py.pres Z.
Variable to_datetime : Py.json -> Py.pres Py.json.
Variable make_frame :
  Py.json -> Py.json -> Py.json -> Py.json -> Py.json -> Py.json -> Py.pres (list bar).


End FetchFacts.

(** X4: a failing request is not reported as such by [fetch_stock_data]:
    when the first [http.get] raises (a network error, or the adapter's
    retries running out), the handler's [hasattr(response, 'text')] reads
    the never-assigned [response] and [UnboundLocalError] is raised instead,
    after one request; when the retry after a 429 response raises, that
    exception is re-raised, after two requests. *)
Theorem fetch_network_errors
  (http_get : nat -> String.string -> Z -> Z -> Py.pres Py.response)
  (timestamp_of : String.string -> Py.pres Z) (to_datetime : Py.json -> Py.pres Py.json)
  (make_frame : Py.json -> Py.json -> Py.json -> Py.json -> Py.json -> Py.json ->
                Py.pres (list bar))
  (symbol start_date end_date : String.string) (p1 p2 : Z) :
  timestamp_of start_date = inr p1 -> timestamp_of end_date = inr p2 ->
  (forall e, http_get 0%nat symbol p1 p2 = inl e ->
     App.fetch_stock_data http_get timestamp_of to_datetime make_frame
       symbol start_date end_date = (1%nat, inl (Py.UnboundLocalError "response"))) /\
  (forall r e, http_get 0%nat symbol p1 p2 = inr r -> Py.status_code r = 429%Z ->
     http_get 1%nat symbol p1 p2 = inl e ->
     App.fetch_stock_data http_get timestamp_of to_datetime make_frame
       symbol start_date end_date = (2%nat, inl e)).
Proof.
  intros Ha Hb. unfold App.fetch_stock_data, App.try_block. rewrite Ha, Hb.
  split.
  - intros e Hg. rewrite Hg. reflexivity.
  - intros r e Hg Hs Hg1. rewrite Hg, Hs, Hg1. reflexivity.
Qed.

Lemma fetch_network_errors_witness :
  let get := fun (k : nat) (_ : String.string) (_ _ : Z) =>
    (inl (Py.RequestException "Connection refused") : Py.pres Py.response) in
  let ts := fun (_ : String.string) => (inr 1700000000%Z : Py.pres Z) in
  (ts "2024-01-01" = inr 1700000000%Z /\ ts "2024-06-01" = inr 1700000000%Z) /\
  ((forall e, get 0%nat "AAPL" 1700000000%Z 1700000000%Z = inl e ->
     App.fetch_stock_data get ts (fun j => inr j) (fun _ _ _ _ _ _ => inr [])
       "AAPL" "2024-01-01" "2024-06-01" = (1%nat, inl (Py.UnboundLocalError "response"))) /\
  (forall r e, get 0%nat "AAPL" 1700000000%Z 1700000000%Z = inr r ->
     Py.status_code r = 429%Z ->
     get 1%nat "AAPL" 1700000000%Z 1700000000%Z = inl e ->
     App.fetch_stock_data get ts (fun j => inr j) (fun _ _ _ _ _ _ => inr [])
       "AAPL" "2024-01-01" "2024-06-01" = (2%nat, inl e))).
Proof.
  intros get ts. split; [split; reflexivity |].
  apply (fetch_network_errors get ts (fun j => inr j) (fun _ _ _ _ _ _ => inr [])
           "AAPL" "2024-01-01" "2024-06-01" 1700000000%Z 1700000000%Z);
    reflexivity.
Defined.

(** X5: [fetch_stock_data] makes at most two requests, and a second one only
    after a first response with status 429 (the retry is not repeated,
    whatever the second status); an unparsable start or end date raises
    before any request is made. *)
Theorem fetch_request_count
  (http_get : nat -> String.string -> Z -> Z -> Py.pres Py.response)
  (timestamp_of : String.string -> Py.pres Z) (to_datetime : Py.json -> Py.pres Py.json)
  (make_frame : Py.json -> Py.json -> Py.json -> Py.json -> Py.json -> Py.json ->
                Py.pres (list bar))
  (symbol start_date end_date : String.string) :
  let out := App.fetch_stock_data http_get timestamp_of to_datetime make_frame
               symbol start_date end_date in
  (fst out <= 2)%nat /\
  (fst out = 2%nat ->
     exists p1 p2 r, timestamp_of start_date = inr p1 /\
       timestamp_of end_date = inr p2 /\ http_get 0%nat symbol p1 p2 = inr r /\
       Py.status_code r = 429%Z) /\
  (forall e, (timestamp_of start_date = inl e \/
              (exists p1, timestamp_of start_date = inr p1 /\
                          timestamp_of end_date = inl e)) ->
     out = (0%nat, inl e)).
Proof.
  intro out. unfold out, App.fetch_stock_data, App.try_block.
  split; [| split].
  - destruct (timestamp_of start_date) as [e | p1]; [cbn; lia |].
    destruct (timestamp_of end_date) as [e | p2]; [cbn; lia |].
    destruct (http_get 0%nat symbol p1 p2) as [e | r]; [cbn; lia |].
    destruct (Py.status_code r =? 429)%Z;
      [destruct (http_get 1%nat symbol p1 p2) |];
      try destruct (App.handle_response _ _ _ _); cbn; lia.
  - destruct (timestamp_of start_date) as [e | p1]; [cbn; lia |].
    destruct (timestamp_of end_date) as [e | p2]; [cbn; lia |].
    destruct (http_get 0%nat symbol p1 p2) as [e | r] eqn:Hg; [cbn; lia |].
    destruct (Z.eqb_spec (Py.status_code r) 429).
    + intros _. exists p1, p2, r. repeat split; auto.
    + destruct (App.handle_response _ _ _ _); cbn; lia.
  - intros e [He | (p1 & Hp & He)];
      [rewrite He; reflexivity | rewrite Hp, He; reflexivity].
Qed.





(** X8: when the first request fails, the chart the callback returns is the
    error figure of the [UnboundLocalError] about [response], not of the
    request's own exception, whatever indicators are selected (['macd']
    included, since nothing is computed). *)
Theorem update_chart_network_error (sqrt : Qc -> Qc)
  (http_get : nat -> String.string -> Z -> Z -> Py.pres Py.response)
  (timestamp_of : String.string -> Py.pres Z) (to_datetime : Py.json -> Py.pres Py.json)
  (make_frame : Py.json -> Py.json -> Py.json -> Py.json -> Py.json -> Py.json ->
                Py.pres (list bar))
  (symbol start_date end_date : String.string) (indicators : list String.string)
  (p1 p2 : Z) (e : Py.exn) :
  timestamp_of start_date = inr p1 -> timestamp_of end_date = inr p2 ->
  http_get 0%nat symbol p1 p2 = inl e ->
  App.update_chart sqrt
    (fun s d1 d2 => snd (App.fetch_stock_data http_get timestamp_of to_datetime
                           make_frame s d1 d2))
    symbol start_date end_date indicators =
  inr (App.ErrorFigure (Py.UnboundLocalError "response")).
Proof.
  intros Ha Hb Hg.
  unfold App.update_chart, App.fetch_stock_data, App.try_block.
  rewrite Ha, Hb, Hg. reflexivity.
Qed.

Lemma update_chart_network_error_witness :
  let get := fun (k : nat) (_ : String.string) (_ _ : Z) =>
    (inl (Py.RequestException "Max retries exceeded") : Py.pres Py.response) in
  let ts := fun (_ : String.string) => (inr 1700000000%Z : Py.pres Z) in
  (ts "2024-01-01" = inr 1700000000%Z /\ ts "2024-06-01" = inr 1700000000%Z /\
   get 0%nat "AAPL" 1700000000%Z 1700000000%Z =
   inl (Py.RequestException "Max retries exceeded")) /\
  App.update_chart isqrt_floor
    (fun s d1 d2 => snd (App.fetch_stock_data get ts (fun j => inr j)
                           (fun _ _ _ _ _ _ => inr []) s d1 d2))
    "AAPL" "2024-01-01" "2024-06-01" ["macd"; "rsi"] =
  inr (App.ErrorFigure (Py.UnboundLocalError "response")).
Proof.
  intros get ts. split; [repeat split |].
  apply (update_chart_network_error isqrt_floor get ts (fun j => inr j)
           (fun _ _ _ _ _ _ => inr []) "AAPL" "2024-01-01" "2024-06-01" ["macd"; "rsi"]
           1700000000%Z 1700000000%Z (Py.RequestException "Max retries exceeded"));
    reflexivity.
Defined.

(** * Ranges of the engines *)

Lemma Qc_0_lt_1 : (0 : Qc) < 1.
Proof. apply Qclt_alt. vm_compute. reflexivity. Qed.

Lemma Qc_pos_neq0 (y : Qc) : 0 < y -> y <> 0.
Proof. intros Hy E. subst y. exact (Qclt_not_eq 0 0 Hy eq_refl). Qed.

Lemma Qc_nonneg_pos (a b : Qc) : 0 <= a -> 0 < b -> 0 < a + b.
Proof.
  intros Ha Hb. apply Qclt_le_trans with b; [exact Hb |].
  replace b with (0 + b) at 1 by ring.
  apply Qcplus_le_compat; [exact Ha | apply Qcle_refl].
Qed.

Lemma Qc_nonneg_neq0_pos (a : Qc) : 0 <= a -> a <> 0 -> 0 < a.
Proof.
  intros Ha Hn. destruct (Qcle_lt_or_eq 0 a Ha) as [H | H]; [exact H |].
  congruence.
Qed.

Lemma Qcdiv_lower (L x y : Qc) : 0 < y -> L * y <= x -> L <= x / y.
Proof.
  intros Hy H. apply (Qcmult_lt_0_le_reg_r _ _ y Hy).
  replace (x / y * y) with x by (field; apply Qc_pos_neq0; exact Hy). exact H.
Qed.

Lemma Qcdiv_upper (U x y : Qc) : 0 < y -> x <= U * y -> x / y <= U.
Proof.
  intros Hy H. apply (Qcmult_lt_0_le_reg_r _ _ y Hy).
  replace (x / y * y) with x by (field; apply Qc_pos_neq0; exact Hy). exact H.
Qed.

Lemma Qc_of_Z_le (a b : Z) : (a <= b)%Z -> Qc_of_Z a <= Qc_of_Z b.
Proof.
  intro H. unfold Qcle, Qc_of_Z, Q2Qc; cbn [this].
  rewrite !Qred_correct. unfold Qle; simpl. lia.
Qed.

Lemma Qc_of_nat_S (n : nat) : Qc_of_nat (S n) = 1 + Qc_of_nat n.
Proof.
  rewrite !Qc_of_nat_Z, Nat2Z.inj_succ, <- Z.add_1_l, Qc_of_Z_add, Qc_of_Z_1.
  reflexivity.
Qed.

Lemma Qc_of_nat_0 : Qc_of_nat 0 = 0.
Proof. exact Qc_of_Z_0. Qed.

Lemma Qc_of_nat_pos (n : nat) : (0 < n)%nat -> 0 < Qc_of_nat n.
Proof.
  intro Hn. apply Qc_nonneg_neq0_pos; [| apply Qc_of_nat_neq0; lia].
  rewrite Qc_of_nat_Z. apply Qc_of_Z_nonneg. lia.
Qed.

(** A weighted mean [(p a + q b) / (p + q)] with [p >= 0] and [q > 0] stays
    between the bounds of [a] and [b]. *)
Lemma convex_lower (L a b p q : Qc) :
  L <= a -> L <= b -> 0 <= p -> 0 < q -> L <= (p * a + q * b) / (p + q).
Proof.
  intros Ha Hb Hp Hq. apply Qcdiv_lower; [apply Qc_nonneg_pos; assumption |].
  replace (L * (p + q)) with (L * p + L * q) by ring.
  replace (p * a + q * b) with (a * p + b * q) by ring.
  apply Qcplus_le_compat; apply Qcmult_le_compat_r; auto using Qclt_le_weak.
Qed.

Lemma convex_upper (U a b p q : Qc) :
  a <= U -> b <= U -> 0 <= p -> 0 < q -> (p * a + q * b) / (p + q) <= U.
Proof.
  intros Ha Hb Hp Hq. apply Qcdiv_upper; [apply Qc_nonneg_pos; assumption |].
  replace (U * (p + q)) with (U * p + U * q) by ring.
  replace (p * a + q * b) with (a * p + b * q) by ring.
  apply Qcplus_le_compat; apply Qcmult_le_compat_r; auto using Qclt_le_weak.
Qed.

(** ** Exponential smoothing keeps a convex property of its inputs *)

Section EwmRange.

Variable P : Qc -> Prop.
Hypothesis HP : forall a b p q : Qc,
  P a -> P b -> 0 <= p -> 0 < q -> P ((p * a + q * b) / (p + q)).
Variable alpha : Qc.
Hypothesis Ha0 : 0 < alpha.
Hypothesis Ha1 : alpha <= 1.

Lemma ewm_step_in (w : num) (ow : Qc) (n : nat) (cur : num) :
  fin_in P w -> 0 <= ow -> fin_in P cur ->
  fin_in P (fst (fst (ewm_step alpha (w, ow, n) cur))) /\
  0 <= snd (fst (ewm_step alpha (w, ow, n) cur)).
Proof.
  intros Hw Ho Hc.
  assert (Ho' : 0 <= ow * (1 - alpha)).
  { apply Qcmult_nonneg; [exact Ho |].
    apply Qcle_minus_iff in Ha1. exact Ha1. }
  destruct w as [a | | |]; try contradiction;
    destruct cur as [b | | |]; try contradiction; cbn [ewm_step is_obs].
  - cbn [fst snd]. split; [| apply Qclt_le_weak, Qc_0_lt_1].
    destruct (negb (neqb (Fin a) (Fin b))); [| exact Hw].
    cbn [nmul nadd]. rewrite ndiv_fin.
    + apply HP; assumption.
    + apply Qc_pos_neq0, Qc_nonneg_pos; assumption.
  - cbn [fst snd]. auto.
  - cbn [fst snd]. auto.
  - cbn [fst snd]. auto.
Qed.

Lemma ewm_out_in (st : ewm_state) : fin_in P (fst (fst st)) -> fin_in P (ewm_out st).
Proof.
  destruct st as [[w ow] n]. unfold ewm_out. cbn [fst].
  destruct (1 <=? n)%nat; cbn; auto.
Qed.

Lemma ewm_loop_in (s : list num) : forall st : ewm_state,
  fin_in P (fst (fst st)) -> 0 <= snd (fst st) -> Forall (fin_in P) s ->
  Forall (fin_in P) (ewm_loop alpha st s).
Proof.
  induction s as [| cur s IH]; intros [[w ow] n] Hw Ho Hs; [constructor |].
  inversion Hs as [| ? ? Hc Hs']; subst.
  destruct (ewm_step_in w ow n cur Hw Ho Hc) as [H1 H2].
  cbn [ewm_loop]. constructor.
  - apply ewm_out_in. exact H1.
  - apply IH; assumption.
Qed.

Lemma ewm_mean_in (s : list num) :
  Forall (fin_in P) s -> Forall (fin_in P) (ewm_mean alpha s).
Proof.
  intro Hs. destruct s as [| x0 t]; [constructor |].
  inversion Hs as [| ? ? Hx Ht]; subst.
  cbn [ewm_mean]. constructor.
  - apply ewm_out_in. exact Hx.
  - apply ewm_loop_in; [exact Hx | apply Qclt_le_weak, Qc_0_lt_1 | exact Ht].
Qed.

End EwmRange.

Lemma alpha_com_bounds (c : Qc) : 0 <= c -> 0 < 1 / (1 + c) /\ 1 / (1 + c) <= 1.
Proof.
  intro Hc.
  assert (Hd : 0 < 1 + c).
  { rewrite Qcplus_comm. apply Qc_nonneg_pos; [exact Hc | exact Qc_0_lt_1]. }
  split.
  - apply Qc_nonneg_neq0_pos.
    + apply Qcdiv_lower; [exact Hd |]. replace (0 * (1 + c)) with 0 by ring.
      apply Qclt_le_weak, Qc_0_lt_1.
    + intro E. apply Qc_1_neq_0.
      replace 1 with (1 / (1 + c) * (1 + c)) by (field; apply Qc_pos_neq0; exact Hd).
      rewrite E. ring.
  - apply Qcdiv_upper; [exact Hd |].
    replace (1 * (1 + c)) with (1 + c) by ring.
    replace 1 with (1 + 0) at 1 by ring.
    apply Qcplus_le_compat; [apply Qcle_refl | exact Hc].
Qed.

Lemma span_com_nonneg (span : Z) : (1 <= span)%Z ->
  0 <= (Qc_of_Z span - 1) / Qc_of_Z 2.
Proof.
  intro Hs. apply Qcdiv_lower.
  - apply Qc_nonneg_neq0_pos; [apply Qc_of_Z_nonneg; lia | apply Qc_of_Z_neq0; lia].
  - replace (0 * Qc_of_Z 2) with 0 by ring.
    assert (H : 1 <= Qc_of_Z span) by (rewrite <- Qc_of_Z_1; apply Qc_of_Z_le; lia).
    apply Qcle_minus_iff in H. exact H.
Qed.

Lemma ewm_span_in (P : Qc -> Prop) (HP : forall a b p q : Qc,
  P a -> P b -> 0 <= p -> 0 < q -> P ((p * a + q * b) / (p + q)))
  (span : Z) (s r : list num) :
  ewm_span span s = inr r -> Forall (fin_in P) s -> Forall (fin_in P) r.
Proof.
  unfold ewm_span. destruct (span <? 1)%Z eqn:E; [discriminate |].
  apply Z.ltb_ge in E. intros H Hs. injection H as <-.
  destruct (alpha_com_bounds _ (span_com_nonneg span E)) as [H0 H1].
  apply ewm_mean_in; assumption.
Qed.

Lemma ewm_com_in (P : Qc -> Prop) (HP : forall a b p q : Qc,
  P a -> P b -> 0 <= p -> 0 < q -> P ((p * a + q * b) / (p + q)))
  (com : Z) (s r : list num) :
  ewm_com com s = inr r -> Forall (fin_in P) s -> Forall (fin_in P) r.
Proof.
  unfold ewm_com. destruct (com <? 0)%Z eqn:E; [discriminate |].
  apply Z.ltb_ge in E. intros H Hs. injection H as <-.
  destruct (alpha_com_bounds _ (Qc_of_Z_nonneg com E)) as [H0 H1].
  apply ewm_mean_in; assumption.
Qed.

Lemma interval_convex (L U : Qc) : forall a b p q : Qc,
  L <= a <= U -> L <= b <= U -> 0 <= p -> 0 < q ->
  L <= (p * a + q * b) / (p + q) <= U.
Proof.
  intros a b p q [Ha1 Ha2] [Hb1 Hb2] Hp Hq.
  split; [apply convex_lower | apply convex_upper]; assumption.
Qed.

Lemma nonneg_convex : forall a b p q : Qc,
  0 <= a -> 0 <= b -> 0 <= p -> 0 < q -> 0 <= (p * a + q * b) / (p + q).
Proof. intros. apply convex_lower; assumption. Qed.

(** X9: every value of app.py's [calculate_ema] is NaN or lies between [L]
    and [U] when every input value is NaN or lies between [L] and [U]. *)
Theorem ema_within_input_range (data : list num) (span : Z) (L U : Qc)
  (ema : list num) :
  Forall (fin_in (fun a => L <= a <= U)) data ->
  App.calculate_ema data span = inr ema ->
  Forall (fin_in (fun a => L <= a <= U)) ema.
Proof.
  intros Hd He. exact (ewm_span_in _ (interval_convex L U) span data ema He Hd).
Qed.

(** ** Rolling means stay between the bounds of their window *)

Lemma Forall_firstn {A} (P : A -> Prop) (n : nat) (l : list A) :
  Forall P l -> Forall P (firstn n l).
Proof.
  intro H. revert n. induction H as [| x l Hx _ IH]; intro n;
    destruct n; cbn; constructor; auto.
Qed.

Lemma Forall_skipn {A} (P : A -> Prop) (n : nat) (l : list A) :
  Forall P l -> Forall P (skipn n l).
Proof.
  intro H. revert n. induction H as [| x l Hx Hl IH]; intro n;
    destruct n; cbn; try constructor; auto.
Qed.

Lemma rolling_apply_in (Q R : num -> Prop) (f : list num -> num) (w : nat)
  (s : list num) :
  Forall Q s -> (forall xs, Forall Q xs -> R (f xs)) ->
  Forall R (rolling_apply f w s).
Proof.
  intros Hs Hf. unfold rolling_apply. apply Forall_map, Forall_forall.
  intros i _. apply Hf. unfold win. apply Forall_firstn, Forall_skipn, Hs.
Qed.

Lemma filter_obs_in (P : Qc -> Prop) (xs : list num) :
  Forall (fin_in P) xs ->
  exists l : list Qc, filter is_obs xs = map Fin l /\ Forall P l.
Proof.
  induction 1 as [| x xs Hx _ (l & E & Hl)]; [exists []; split; constructor |].
  destruct x as [a | | |]; try contradiction; cbn [filter is_obs].
  - exists (a :: l). rewrite E. split; [reflexivity | constructor; assumption].
  - exists l. split; assumption.
Qed.

Lemma qsum_lower (L : Qc) (l : list Qc) :
  Forall (fun a => L <= a) l -> L * Qc_of_nat (length l) <= qsum l.
Proof.
  induction 1 as [| a l Ha _ IH].
  - cbn [length]. rewrite Qc_of_nat_0. replace (L * 0) with 0 by ring.
    apply Qcle_refl.
  - cbn [length]. rewrite Qc_of_nat_S, qsum_cons.
    replace (L * (1 + Qc_of_nat (length l))) with (L + L * Qc_of_nat (length l))
      by ring.
    apply Qcplus_le_compat; assumption.
Qed.

Lemma qsum_upper (U : Qc) (l : list Qc) :
  Forall (fun a => a <= U) l -> qsum l <= U * Qc_of_nat (length l).
Proof.
  induction 1 as [| a l Ha _ IH].
  - cbn [length]. rewrite Qc_of_nat_0. replace (U * 0) with 0 by ring.
    apply Qcle_refl.
  - cbn [length]. rewrite Qc_of_nat_S, qsum_cons.
    replace (U * (1 + Qc_of_nat (length l))) with (U + U * Qc_of_nat (length l))
      by ring.
    apply Qcplus_le_compat; assumption.
Qed.

Lemma roll_mean_at_in (L U : Qc) (minp : nat) (xs : list num) :
  Forall (fin_in (fun a => L <= a <= U)) xs ->
  fin_in (fun a => L <= a <= U) (roll_mean_at minp xs).
Proof.
  intro Hx. destruct (filter_obs_in _ xs Hx) as (l & E & Hl).
  unfold roll_mean_at. rewrite E, length_map.
  destruct ((minp <=? length l)%nat && (0 <? length l)%nat) eqn:C; [| exact I].
  apply andb_prop in C as [_ C]. apply Nat.ltb_lt in C.
  pose proof (Qc_of_nat_pos _ C) as Hn.
  rewrite nsum_fin, ndiv_fin by (apply Qc_pos_neq0; exact Hn).
  cbn [fin_in]. split.
  - apply Qcdiv_lower; [exact Hn |]. apply qsum_lower.
    eapply Forall_impl; [| exact Hl]. intros a [H _]. exact H.
  - apply Qcdiv_upper; [exact Hn |]. apply qsum_upper.
    eapply Forall_impl; [| exact Hl]. intros a [_ H]. exact H.
Qed.

Lemma rolling_mean_in (L U : Qc) (w : Z) (s r : list num) :
  rolling_mean w s = inr r ->
  Forall (fin_in (fun a => L <= a <= U)) s ->
  Forall (fin_in (fun a => L <= a <= U)) r.
Proof.
  unfold rolling_mean, rolling_check. destruct (w <? 0)%Z; [discriminate |].
  cbn [bind]. intros H Hs. injection H as <-.
  apply (rolling_apply_in (fin_in (fun a => L <= a <= U))); [exact Hs |].
  apply roll_mean_at_in.
Qed.

(** X10: every value of app.py's [calculate_sma] is NaN or lies between [L]
    and [U] when every input value is NaN or lies between [L] and [U]. *)
Theorem sma_within_input_range (data : list num) (window : Z) (L U : Qc)
  (sma : list num) :
  Forall (fin_in (fun a => L <= a <= U)) data ->
  App.calculate_sma data window = inr sma ->
  Forall (fin_in (fun a => L <= a <= U)) sma.
Proof. intros Hd Hs. exact (rolling_mean_in L U window data sma Hs Hd). Qed.

(** ** RSI stays within [0, 100] *)

Lemma Forall_map2 {A B C} (P : A -> Prop) (Q : B -> Prop) (R : C -> Prop)
  (f : A -> B -> C) (l1 : list A) (l2 : list B) :
  Forall P l1 -> Forall Q l2 -> (forall a b, P a -> Q b -> R (f a b)) ->
  Forall R (map2 f l1 l2).
Proof.
  intros H1. revert l2. induction H1 as [| a l1 Ha _ IH]; intros l2 H2 Hf;
    [constructor |].
  destruct H2 as [| b l2 Hb H2]; cbn [map2]; constructor; auto.
Qed.

Lemma Qc_100_nonneg : 0 <= Qc_of_Z 100.
Proof. apply Qc_of_Z_nonneg. lia. Qed.

Lemma rsi_of_rs_fin_range (q : Qc) : 0 <= q ->
  fin_in (fun r => 0 <= r <= Qc_of_Z 100) (Calc.rsi_of_rs (Fin q)).
Proof.
  intro Hq. assert (Hd : 0 < 1 + q).
  { rewrite Qcplus_comm. apply Qc_nonneg_pos; [exact Hq | exact Qc_0_lt_1]. }
  unfold Calc.rsi_of_rs. cbn [nadd].
  rewrite ndiv_fin by (apply Qc_pos_neq0; exact Hd).
  cbn [nsub nneg nadd fin_in].
  assert (H0 : 0 <= Qc_of_Z 100 / (1 + q)).
  { apply Qcdiv_lower; [exact Hd |]. replace (0 * (1 + q)) with 0 by ring.
    exact Qc_100_nonneg. }
  assert (H1 : Qc_of_Z 100 / (1 + q) <= Qc_of_Z 100).
  { apply Qcdiv_upper; [exact Hd |].
    replace (Qc_of_Z 100 * (1 + q)) with (Qc_of_Z 100 + Qc_of_Z 100 * q) by ring.
    replace (Qc_of_Z 100) with (Qc_of_Z 100 + 0) at 1 by ring.
    apply Qcplus_le_compat; [apply Qcle_refl |].
    apply Qcmult_nonneg; [exact Qc_100_nonneg | exact Hq]. }
  split.
  - apply Qcle_minus_iff in H1. exact H1.
  - apply Qcle_minus_iff.
    replace (Qc_of_Z 100 + - (Qc_of_Z 100 + - (Qc_of_Z 100 / (1 + q))))
      with (Qc_of_Z 100 / (1 + q)) by ring.
    exact H0.
Qed.

(** [100 - 100 / (1 + rs)] of the ratio of two averages that are NaN or
    non-negative is NaN or lies in [0, 100]. *)
Lemma rsi_of_ratio_range (u d : num) :
  fin_in (fun a => 0 <= a) u -> fin_in (fun a => 0 <= a) d ->
  fin_in (fun r => 0 <= r <= Qc_of_Z 100) (Calc.rsi_of_rs (ndiv u d)).
Proof.
  intros Hu Hd.
  destruct u as [a | | |]; try contradiction; [| exact I].
  destruct d as [b | | |]; try contradiction; [| exact I].
  cbn [fin_in] in Hu, Hd. cbn [ndiv].
  destruct (Qc_eqb b 0) eqn:E.
  - pose proof (Qc_cmp_nonneg a Hu) as Ha.
    destruct (a ?= 0); [exact I | contradiction |].
    unfold Calc.rsi_of_rs. cbn [nadd ndiv nsub nneg fin_in].
    replace (Qc_of_Z 100 + - 0) with (Qc_of_Z 100) by ring.
    split; [exact Qc_100_nonneg | apply Qcle_refl].
  - apply rsi_of_rs_fin_range. apply Qcdiv_lower.
    + apply Qc_nonneg_neq0_pos; [exact Hd |].
      intro Hb. rewrite Hb in E. discriminate.
    + replace (0 * b) with 0 by ring. exact Hu.
Qed.

Lemma diff_in (s : list num) :
  Forall (fin_in (fun _ => True)) s -> Forall (fin_in (fun _ => True)) (diff s).
Proof.
  intro Hs. destruct s as [| x t]; [constructor |]. cbn [diff].
  constructor; [exact I |].
  inversion Hs as [| ? ? Hx Ht]; subst.
  apply (Forall_map2 (fin_in (fun _ => True)) (fin_in (fun _ => True))); auto.
  intros a b Ha Hb.
  destruct a, b; cbn in *; tauto.
Qed.

(** X11: for price data with no infinite value (NaN gaps allowed), every
    value calc.py's [calculate_rsi] returns is NaN or lies in [0, 100]. *)
Theorem calc_rsi_within_0_100 (data : list num) (window : Z) (rsi : list num) :
  Forall (fin_in (fun _ => True)) data ->
  Calc.calculate_rsi data window = inr rsi ->
  Forall (fin_in (fun r => 0 <= r <= Qc_of_Z 100)) rsi.
Proof.
  intros Hd H. unfold Calc.calculate_rsi, Calc.rsi_averages in H.
  pose proof (diff_in data Hd) as Hdelta.
  destruct (ewm_com (window - 1) (map clip_lower0 (diff data))) as [e | ru] eqn:E1;
    [discriminate |].
  cbn [bind] in H.
  destruct (ewm_com (window - 1)
             (map (nmul (Fin (Qc_of_Z (-1)))) (map clip_upper0 (diff data))))
    as [e | rd] eqn:E2; [discriminate |].
  cbn [bind] in H. injection H as <-.
  assert (Hu : Forall (fin_in (fun a => 0 <= a)) ru).
  { apply (ewm_com_in _ nonneg_convex _ _ _ E1).
    apply Forall_map. eapply Forall_impl; [| exact Hdelta].
    intros [a | | |] Ha; cbn in Ha |- *; try contradiction; [| exact I].
    unfold clip_lower0. cbn [nlt].
    destruct (Qc_ltb a 0) eqn:L; cbn [fin_in]; [apply Qcle_refl |].
    apply Qcnot_lt_le. intro C. apply Qc_ltb_spec in C. congruence. }
  assert (Hm1 : Qc_of_Z (-1) = Qcopp 1).
  { assert (E : Qc_of_Z (-1) + Qc_of_Z 1 = 0)
      by (rewrite <- Qc_of_Z_add; exact Qc_of_Z_0).
    rewrite Qc_of_Z_1 in E.
    replace (Qc_of_Z (-1)) with (Qc_of_Z (-1) + 1 + Qcopp 1) by ring.
    rewrite E. ring. }
  assert (Hdn : Forall (fin_in (fun a => 0 <= a)) rd).
  { apply (ewm_com_in _ nonneg_convex _ _ _ E2).
    apply Forall_map, Forall_map. eapply Forall_impl; [| exact Hdelta].
    intros [a | | |] Ha; cbn in Ha |- *; try contradiction; [| exact I].
    unfold clip_upper0, ngt. cbn [nlt].
    destruct (Qc_ltb 0 a) eqn:L; cbn [nmul fin_in]; rewrite Hm1.
    - replace (Qcopp 1 * 0) with 0 by ring. apply Qcle_refl.
    - replace (Qcopp 1 * a) with (0 + - a) by ring. apply (proj1 (Qcle_minus_iff a 0)).
      apply Qcnot_lt_le. intro C. apply Qc_ltb_spec in C. congruence. }
  apply Forall_map.
  apply (Forall_map2 _ _ _ ndiv ru rd Hu Hdn).
  intros u d. apply rsi_of_ratio_range.
Qed.

Lemma rolling_mean_nonneg (w : Z) (s r : list num) :
  rolling_mean w s = inr r ->
  Forall (fun x => exists a, x = Fin a /\ 0 <= a) s ->
  Forall (fin_in (fun a => 0 <= a)) r.
Proof.
  unfold rolling_mean, rolling_check. destruct (w <? 0)%Z; [discriminate |].
  cbn [bind]. intros H Hs. injection H as <-.
  apply (rolling_apply_in (fun x => exists a, x = Fin a /\ 0 <= a)); [exact Hs |].
  intros xs Hx.
  assert (Hf : exists l, filter is_obs xs = map Fin l /\ Forall (fun a => 0 <= a) l).
  { apply filter_obs_in. eapply Forall_impl; [| exact Hx].
    intros x (a & -> & Ha). exact Ha. }
  destruct Hf as (l & E & Hl).
  unfold roll_mean_at. rewrite E, length_map.
  destruct ((Z.to_nat w <=? length l)%nat && (0 <? length l)%nat) eqn:C; [| exact I].
  apply andb_prop in C as [_ C]. apply Nat.ltb_lt in C.
  pose proof (Qc_of_nat_pos _ C) as Hn.
  rewrite nsum_fin, ndiv_fin by (apply Qc_pos_neq0; exact Hn).
  cbn [fin_in]. apply Qcdiv_lower; [exact Hn |].
  replace (0 * Qc_of_nat (length l)) with 0 by ring.
  apply qsum_nonneg. exact Hl.
Qed.

(** X12: for price data with no infinite value (NaN gaps allowed), every
    value app.py's [calculate_rsi] returns is NaN or lies in [0, 100]. *)
Theorem app_rsi_within_0_100 (data : list num) (window : Z) (rsi : list num) :
  Forall (fin_in (fun _ => True)) data ->
  App.calculate_rsi data window = inr rsi ->
  Forall (fin_in (fun r => 0 <= r <= Qc_of_Z 100)) rsi.
Proof.
  intros Hd H. unfold App.calculate_rsi in H.
  pose proof (diff_in data Hd) as Hdelta.
  destruct (rolling_mean window (map (where0 (fun d => ngt d (Fin 0))) (diff data)))
    as [e | g] eqn:E1; [discriminate |].
  cbn [bind] in H.
  destruct (rolling_mean window
             (map nneg (map (where0 (fun d => nlt d (Fin 0))) (diff data))))
    as [e | l] eqn:E2; [discriminate |].
  cbn [bind] in H. injection H as <-.
  assert (Hg : Forall (fin_in (fun a => 0 <= a)) g).
  { apply (rolling_mean_nonneg _ _ _ E1).
    apply Forall_map. eapply Forall_impl; [| exact Hdelta].
    intros [a | | |] Ha; cbn in Ha; try contradiction;
      unfold where0, ngt; cbn [nlt].
    - destruct (Qc_ltb 0 a) eqn:L; eexists; (split; [reflexivity |]).
      + apply Qclt_le_weak, Qc_ltb_spec, L.
      + apply Qcle_refl.
    - eexists; split; [reflexivity | apply Qcle_refl]. }
  assert (Hl : Forall (fin_in (fun a => 0 <= a)) l).
  { apply (rolling_mean_nonneg _ _ _ E2).
    apply Forall_map, Forall_map. eapply Forall_impl; [| exact Hdelta].
    intros [a | | |] Ha; cbn in Ha; try contradiction;
      unfold where0; cbn [nlt].
    - destruct (Qc_ltb a 0) eqn:L; cbn [nneg]; eexists; (split; [reflexivity |]).
      + apply Qc_ltb_spec in L. apply Qclt_le_weak in L.
        apply Qcle_minus_iff in L. replace (- a) with (0 + - a) by ring. exact L.
      + replace (- 0) with 0 by ring. apply Qcle_refl.
    - cbn [nneg]. eexists; split; [reflexivity |].
      replace (- 0) with 0 by ring. apply Qcle_refl. }
  apply Forall_map.
  apply (Forall_map2 _ _ _ ndiv g l Hg Hl).
  intros u d. apply rsi_of_ratio_range.
Qed.

(** ** VWAP stays within the range of the typical prices *)

Lemma vwap_from_in (L U : Qc) (df : list bar) : forall a b : Qc,
  Forall finite_bar df -> Forall (fun x => L <= typical_q x <= U) df ->
  0 <= b -> L * b <= a -> a <= U * b ->
  Forall (fin_in (fun v => L <= v <= U))
    (map2 ndiv
       (cumsum_from (Fin a)
          (map (fun x => nmul (CalcVwap.typical_price x) (Volume x)) df))
       (cumsum_from (Fin b) (map Volume df))).
Proof.
  induction df as [| x df IH]; intros a b Hf Ht Hb Hl Hu; [constructor |].
  inversion Hf as [| ? ? Hx Hf']; inversion Ht as [| ? ? [Htl Htu] Ht']; subst.
  destruct (finite_bar_vals x Hx) as (_ & _ & _ & Hv & Hv0).
  cbn [map cumsum_from]. rewrite typical_price_fin by exact Hx.
  set (t := typical_q x) in *. set (v := qv (Volume x)) in *.
  rewrite Hv. cbn [is_obs nadd map2].
  assert (Hb' : 0 <= b + v).
  { replace 0 with (0 + 0) by ring. apply Qcplus_le_compat; assumption. }
  assert (Hl' : L * (b + v) <= a + t * v).
  { replace (L * (b + v)) with (L * b + L * v) by ring.
    apply Qcplus_le_compat; [exact Hl | apply Qcmult_le_compat_r; assumption]. }
  assert (Hu' : a + t * v <= U * (b + v)).
  { replace (U * (b + v)) with (U * b + U * v) by ring.
    apply Qcplus_le_compat; [exact Hu | apply Qcmult_le_compat_r; assumption]. }
  constructor.
  - cbn [ndiv]. destruct (Qc_eqb (b + v) 0) eqn:E.
    + apply Qc_eqb_spec in E. rewrite E in Hl', Hu'.
      replace (L * 0) with 0 in Hl' by ring. replace (U * 0) with 0 in Hu' by ring.
      rewrite (Qcle_antisym _ _ Hu' Hl'). exact I.
    + assert (Hp : 0 < b + v).
      { apply Qc_nonneg_neq0_pos; [exact Hb' |].
        intro Z0. rewrite Z0 in E. discriminate. }
      cbn [fin_in]. split; [apply Qcdiv_lower | apply Qcdiv_upper]; assumption.
  - apply IH; assumption.
Qed.

(** X13: for well-formed bars (finite prices, non-negative volume) whose
    typical prices all lie between [L] and [U], every value of app.py's
    [calculate_vwap] is NaN (no volume yet) or lies between [L] and [U]. *)
Theorem vwap_within_typical_range (df : list bar) (L U : Qc) :
  Forall finite_bar df -> Forall (fun x => L <= typical_q x <= U) df ->
  Forall (fin_in (fun v => L <= v <= U)) (App.calculate_vwap df).
Proof.
  intros Hf Ht. unfold App.calculate_vwap, cumsum.
  apply vwap_from_in; [exact Hf | exact Ht | apply Qcle_refl | |];
    [replace (L * 0) with 0 by ring | replace (U * 0) with 0 by ring];
    apply Qcle_refl.
Qed.

(** ** Flat series *)

Lemma ewm_loop_flat (alpha c : Qc) (m : nat) : forall (ow : Qc) (k : nat),
  ewm_loop alpha (Fin c, ow, S k) (repeat (Fin c) m) = repeat (Fin c) m.
Proof.
  induction m as [| m IH]; intros ow k; [reflexivity |].
  cbn [repeat ewm_loop ewm_step is_obs neqb]. rewrite Qc_eqb_refl.
  cbn [negb]. rewrite IH. reflexivity.
Qed.

Lemma ewm_mean_flat (alpha c : Qc) (n : nat) :
  ewm_mean alpha (repeat (Fin c) n) = repeat (Fin c) n.
Proof.
  destruct n as [| n]; [reflexivity |].
  cbn [repeat ewm_mean is_obs]. rewrite ewm_loop_flat. reflexivity.
Qed.

Lemma map2_repeat {A B C} (f : A -> B -> C) (a : A) (b : B) (n : nat) :
  map2 f (repeat a n) (repeat b n) = repeat (f a b) n.
Proof. induction n; cbn; congruence. Qed.

Lemma nsub_self (c : Qc) : nsub (Fin c) (Fin c) = Fin 0.
Proof. cbn. f_equal. ring. Qed.

(** X14: on a flat price series (every value the same finite [c]) and
    periods of at least 1, app.py's [calculate_macd] returns a MACD line, a
    signal line and a histogram that are 0 everywhere. *)
Theorem macd_flat_series (c : Qc) (n : nat) (fast_period slow_period signal_period : Z) :
  (1 <= fast_period)%Z -> (1 <= slow_period)%Z -> (1 <= signal_period)%Z ->
  App.calculate_macd (repeat (Fin c) n) fast_period slow_period signal_period =
  inr (repeat (Fin 0) n, repeat (Fin 0) n, repeat (Fin 0) n).
Proof.
  intros Hf Hs Hg. unfold App.calculate_macd, App.calculate_ema, ewm_span.
  replace (fast_period <? 1)%Z with false by (symmetry; apply Z.ltb_ge; lia).
  replace (slow_period <? 1)%Z with false by (symmetry; apply Z.ltb_ge; lia).
  replace (signal_period <? 1)%Z with false by (symmetry; apply Z.ltb_ge; lia).
  cbn [bind]. rewrite !ewm_mean_flat, !map2_repeat, nsub_self, ewm_mean_flat,
    map2_repeat, nsub_self. reflexivity.
Qed.

Lemma skipn_repeat {A} (x : A) (j n : nat) : skipn j (repeat x n) = repeat x (n - j).
Proof.
  revert n. induction j as [| j IH]; intro n; [rewrite Nat.sub_0_r; reflexivity |].
  destruct n; [reflexivity |]. cbn. apply IH.
Qed.

Lemma firstn_repeat' {A} (x : A) (m n : nat) :
  firstn m (repeat x n) = repeat x (Nat.min m n).
Proof.
  revert n. induction m as [| m IH]; intro n; [reflexivity |].
  destruct n; [reflexivity |]. cbn. f_equal. apply IH.
Qed.

Lemma rolling_apply_flat (f : list num -> num) (w : nat) (x : num) (n : nat) :
  rolling_apply f w (repeat x n) =
  map (fun i => f (repeat x (Nat.min w (S i)))) (seq 0 n).
Proof.
  unfold rolling_apply. rewrite repeat_length. apply map_ext_in.
  intros i Hi. apply in_seq in Hi. unfold win.
  rewrite skipn_repeat, firstn_repeat'. f_equal. f_equal. lia.
Qed.

Lemma filter_obs_flat (c : Qc) (j : nat) :
  filter is_obs (repeat (Fin c) j) = repeat (Fin c) j.
Proof. induction j; cbn; congruence. Qed.

Lemma qsum_repeat (c : Qc) (j : nat) : qsum (repeat c j) = Qc_of_nat j * c.
Proof.
  induction j as [| j IH].
  - rewrite Qc_of_nat_0. cbn. ring.
  - cbn [repeat]. rewrite qsum_cons, IH, Qc_of_nat_S. ring.
Qed.

Lemma nsum_flat (c : Qc) (j : nat) : nsum (repeat (Fin c) j) = Fin (Qc_of_nat j * c).
Proof. rewrite <- (map_repeat c j Fin), nsum_fin, qsum_repeat. reflexivity. Qed.

Lemma mean_flat (c : Qc) (j : nat) : (0 < j)%nat ->
  ndiv (nsum (repeat (Fin c) j)) (Fin (Qc_of_nat j)) = Fin c.
Proof.
  intro Hj. pose proof (Qc_of_nat_neq0 j ltac:(lia)) as Hn.
  rewrite nsum_flat, ndiv_fin by exact Hn. f_equal. field. exact Hn.
Qed.

Lemma roll_mean_flat (minp : nat) (c : Qc) (j : nat) :
  roll_mean_at minp (repeat (Fin c) j) =
  if (minp <=? j)%nat && (0 <? j)%nat then Fin c else NaN.
Proof.
  unfold roll_mean_at. rewrite filter_obs_flat, repeat_length.
  destruct ((minp <=? j)%nat && (0 <? j)%nat) eqn:C; [| reflexivity].
  apply andb_prop in C as [_ C]. apply Nat.ltb_lt in C. apply mean_flat, C.
Qed.

Lemma roll_var_flat (minp : nat) (c : Qc) (j : nat) :
  roll_var_at minp (repeat (Fin c) j) =
  if (minp <=? j)%nat && (1 <? j)%nat then Fin 0 else NaN.
Proof.
  unfold roll_var_at. rewrite filter_obs_flat, repeat_length.
  destruct ((minp <=? j)%nat && (1 <? j)%nat) eqn:C; [| reflexivity].
  apply andb_prop in C as [_ C]. apply Nat.ltb_lt in C.
  rewrite mean_flat by lia. rewrite map_repeat, nsub_self.
  replace (nmul (Fin 0) (Fin 0)) with (Fin 0) by (cbn; f_equal; ring).
  rewrite nsum_flat. replace (Qc_of_nat j * 0) with 0 by ring.
  rewrite ndiv_fin by (apply Qc_of_nat_neq0; lia).
  replace (0 / Qc_of_nat (j - 1)) with 0
    by (field; apply Qc_of_nat_neq0; lia).
  reflexivity.
Qed.

Lemma map2_map_same {A B C D} (f : B -> C -> D) (g : A -> B) (h : A -> C)
  (l : list A) : map2 f (map g l) (map h l) = map (fun x => f (g x) (h x)) l.
Proof. induction l; cbn; congruence. Qed.

Lemma bands_flat_point (sqrt : Qc -> Qc) (Hs : sqrt 0 = 0) (c k : Qc) (m i : nat) :
  (2 <= m)%nat ->
  nadd (if (i + 1 <? m)%nat then NaN else Fin c)
       (nmul (nsqrt sqrt (roll_var_at m (repeat (Fin c) (Nat.min m (S i))))) (Fin k)) =
  (if (i + 1 <? m)%nat then NaN else Fin c) /\
  nsub (if (i + 1 <? m)%nat then NaN else Fin c)
       (nmul (nsqrt sqrt (roll_var_at m (repeat (Fin c) (Nat.min m (S i))))) (Fin k)) =
  (if (i + 1 <? m)%nat then NaN else Fin c).
Proof.
  intro Hm. destruct (i + 1 <? m)%nat eqn:C; [split; reflexivity |].
  apply Nat.ltb_ge in C. rewrite roll_var_flat.
  replace (m <=? Nat.min m (S i))%nat with true by (symmetry; apply Nat.leb_le; lia).
  replace (1 <? Nat.min m (S i))%nat with true by (symmetry; apply Nat.ltb_lt; lia).
  cbn [andb nsqrt]. replace (Qc_ltb 0 0) with false by reflexivity.
  rewrite Hs. cbn [nmul nsub nneg nadd].
  split; f_equal; ring.
Qed.

(** X15: on a flat price series (every value the same finite [c]), a window
    of at least 2 and a finite multiplier, app.py's
    [calculate_bollinger_bands] returns three equal bands: NaN at the
    first [window - 1] positions and [c] everywhere else (the standard
    deviation of a flat window is 0). *)
Theorem bollinger_flat_series (sqrt : Qc -> Qc) (c k : Qc) (n : nat) (window : Z) :
  sqrt 0 = 0 -> (2 <= window)%Z ->
  App.calculate_bollinger_bands sqrt (repeat (Fin c) n) window (Fin k) =
  inr (map (fun i => if (i + 1 <? Z.to_nat window)%nat then NaN else Fin c) (seq 0 n),
       map (fun i => if (i + 1 <? Z.to_nat window)%nat then NaN else Fin c) (seq 0 n),
       map (fun i => if (i + 1 <? Z.to_nat window)%nat then NaN else Fin c) (seq 0 n)).
Proof.
  intros Hs Hw.
  unfold App.calculate_bollinger_bands, App.calculate_sma, rolling_mean,
    rolling_std, rolling_check.
  replace (window <? 0)%Z with false by (symmetry; apply Z.ltb_ge; lia).
  cbn [bind]. rewrite !rolling_apply_flat.
  set (m := Z.to_nat window).
  assert (Hm : (2 <= m)%nat) by lia.
  assert (Emid : map (fun i => roll_mean_at m (repeat (Fin c) (Nat.min m (S i))))
                   (seq 0 n) =
                 map (fun i => if (i + 1 <? m)%nat then NaN else Fin c) (seq 0 n)).
  { apply map_ext. intro i. rewrite roll_mean_flat.
    destruct (i + 1 <? m)%nat eqn:C.
    - apply Nat.ltb_lt in C.
      replace (m <=? Nat.min m (S i))%nat with false
        by (symmetry; apply Nat.leb_gt; lia). reflexivity.
    - apply Nat.ltb_ge in C.
      replace (m <=? Nat.min m (S i))%nat with true
        by (symmetry; apply Nat.leb_le; lia).
      replace (0 <? Nat.min m (S i))%nat with true
        by (symmetry; apply Nat.ltb_lt; lia). reflexivity. }
  rewrite Emid, !map_map, !map2_map_same.
  f_equal. f_equal; [f_equal |]; apply map_ext; intro i;
    apply (bands_flat_point sqrt Hs c k m i Hm).
Qed.


Ltac solve_fin_bounds :=
  repeat apply Forall_cons; try apply Forall_nil; cbn [fin_in];
  repeat split; try (apply Qc_leb_spec; vm_compute; reflexivity).

Lemma ema_within_input_range_witness :
  match App.calculate_ema [Fin 1; NaN; Fin (Qc_of_Z 3)] 2 with
  | inr ema =>
      (Forall (fin_in (fun a => 1 <= a <= Qc_of_Z 3)) [Fin 1; NaN; Fin (Qc_of_Z 3)] /\
       App.calculate_ema [Fin 1; NaN; Fin (Qc_of_Z 3)] 2 = inr ema) /\
      Forall (fin_in (fun a => 1 <= a <= Qc_of_Z 3)) ema
  | inl _ => False
  end.
Proof.
  destruct (App.calculate_ema [Fin 1; NaN; Fin (Qc_of_Z 3)] 2) as [e | ema] eqn:E;
    [vm_compute in E; discriminate |].
  assert (Hd : Forall (fin_in (fun a => 1 <= a <= Qc_of_Z 3))
                 [Fin 1; NaN; Fin (Qc_of_Z 3)]) by solve_fin_bounds.
  split; [split; [exact Hd | reflexivity] |].
  exact (ema_within_input_range _ 2 1 (Qc_of_Z 3) ema Hd E).
Defined.

Lemma sma_within_input_range_witness :
  match App.calculate_sma [Fin 1; Fin (Qc_of_Z 3); NaN; Fin (Qc_of_Z 2)] 2 with
  | inr sma =>
      (Forall (fin_in (fun a => 1 <= a <= Qc_of_Z 3))
         [Fin 1; Fin (Qc_of_Z 3); NaN; Fin (Qc_of_Z 2)] /\
       App.calculate_sma [Fin 1; Fin (Qc_of_Z 3); NaN; Fin (Qc_of_Z 2)] 2 = inr sma) /\
      Forall (fin_in (fun a => 1 <= a <= Qc_of_Z 3)) sma
  | inl _ => False
  end.
Proof.
  destruct (App.calculate_sma [Fin 1; Fin (Qc_of_Z 3); NaN; Fin (Qc_of_Z 2)] 2)
    as [e | sma] eqn:E; [vm_compute in E; discriminate |].
  assert (Hd : Forall (fin_in (fun a => 1 <= a <= Qc_of_Z 3))
                 [Fin 1; Fin (Qc_of_Z 3); NaN; Fin (Qc_of_Z 2)]) by solve_fin_bounds.
  split; [split; [exact Hd | reflexivity] |].
  exact (sma_within_input_range _ 2 1 (Qc_of_Z 3) sma Hd E).
Defined.

Lemma calc_rsi_within_0_100_witness :
  match Calc.calculate_rsi [Fin 1; Fin (Qc_of_Z 3); NaN; Fin (Qc_of_Z 2)] 2 with
  | inr rsi =>
      (Forall (fin_in (fun _ => True)) [Fin 1; Fin (Qc_of_Z 3); NaN; Fin (Qc_of_Z 2)] /\
       Calc.calculate_rsi [Fin 1; Fin (Qc_of_Z 3); NaN; Fin (Qc_of_Z 2)] 2 = inr rsi) /\
      Forall (fin_in (fun r => 0 <= r <= Qc_of_Z 100)) rsi
  | inl _ => False
  end.
Proof.
  destruct (Calc.calculate_rsi [Fin 1; Fin (Qc_of_Z 3); NaN; Fin (Qc_of_Z 2)] 2)
    as [e | rsi] eqn:E; [vm_compute in E; discriminate |].
  assert (Hd : Forall (fin_in (fun _ => True))
                 [Fin 1; Fin (Qc_of_Z 3); NaN; Fin (Qc_of_Z 2)]) by solve_fin_bounds.
  split; [split; [exact Hd | reflexivity] |].
  exact (calc_rsi_within_0_100 _ 2 rsi Hd E).
Defined.

Lemma app_rsi_within_0_100_witness :
  match App.calculate_rsi [Fin 1; Fin (Qc_of_Z 3); NaN; Fin (Qc_of_Z 2)] 2 with
  | inr rsi =>
      (Forall (fin_in (fun _ => True)) [Fin 1; Fin (Qc_of_Z 3); NaN; Fin (Qc_of_Z 2)] /\
       App.calculate_rsi [Fin 1; Fin (Qc_of_Z 3); NaN; Fin (Qc_of_Z 2)] 2 = inr rsi) /\
      Forall (fin_in (fun r => 0 <= r <= Qc_of_Z 100)) rsi
  | inl _ => False
  end.
Proof.
  destruct (App.calculate_rsi [Fin 1; Fin (Qc_of_Z 3); NaN; Fin (Qc_of_Z 2)] 2)
    as [e | rsi] eqn:E; [vm_compute in E; discriminate |].
  assert (Hd : Forall (fin_in (fun _ => True))
                 [Fin 1; Fin (Qc_of_Z 3); NaN; Fin (Qc_of_Z 2)]) by solve_fin_bounds.
  split; [split; [exact Hd | reflexivity] |].
  exact (app_rsi_within_0_100 _ 2 rsi Hd E).
Defined.

Lemma vwap_within_typical_range_witness :
  let df := [mkBar (Fin 1) (Fin (Qc_of_Z 3)) (Fin 1) (Fin (Qc_of_Z 2)) (Fin 0);
             mkBar (Fin 1) (Fin (Qc_of_Z 4)) (Fin (Qc_of_Z 2)) (Fin (Qc_of_Z 3)) (Fin (Qc_of_Z 5));
             mkBar (Fin 1) (Fin (Qc_of_Z 3)) (Fin 1) (Fin (Qc_of_Z 2)) (Fin (Qc_of_Z 7))] in
  (Forall finite_bar df /\ Forall (fun x => 1 <= typical_q x <= Qc_of_Z 3) df) /\
  Forall (fin_in (fun v => 1 <= v <= Qc_of_Z 3)) (App.calculate_vwap df).
Proof.
  intro df.
  assert (Hf : Forall finite_bar df).
  { repeat apply Forall_cons; try apply Forall_nil; unfold finite_bar; cbn;
      do 4 eexists; (split; [reflexivity |]); (split; [reflexivity |]);
      (split; [reflexivity |]); (split; [reflexivity |]);
      apply Qc_leb_spec; vm_compute; reflexivity. }
  assert (Ht : Forall (fun x => 1 <= typical_q x <= Qc_of_Z 3) df).
  { repeat apply Forall_cons; try apply Forall_nil; split;
      apply Qc_leb_spec; vm_compute; reflexivity. }
  split; [split; assumption |].
  exact (vwap_within_typical_range df 1 (Qc_of_Z 3) Hf Ht).
Defined.

Lemma macd_flat_series_witness :
  ((1 <= 12)%Z /\ (1 <= 26)%Z /\ (1 <= 9)%Z) /\
  App.calculate_macd (repeat (Fin (Qc_of_Z 5)) 4) 12 26 9 =
  inr (repeat (Fin 0) 4, repeat (Fin 0) 4, repeat (Fin 0) 4).
Proof.
  split; [lia |]. apply (macd_flat_series (Qc_of_Z 5) 4 12 26 9); lia.
Defined.

Lemma bollinger_flat_series_witness :
  (isqrt_floor 0 = 0 /\ (2 <= 3)%Z) /\
  App.calculate_bollinger_bands isqrt_floor (repeat (Fin (Qc_of_Z 5)) 4) 3 (Fin (Qc_of_Z 2)) =
  inr (map (fun i => if (i + 1 <? Z.to_nat 3)%nat then NaN else Fin (Qc_of_Z 5)) (seq 0 4),
       map (fun i => if (i + 1 <? Z.to_nat 3)%nat then NaN else Fin (Qc_of_Z 5)) (seq 0 4),
       map (fun i => if (i + 1 <? Z.to_nat 3)%nat then NaN else Fin (Qc_of_Z 5)) (seq 0 4)).
Proof.
  assert (Hs : isqrt_floor 0 = 0) by (apply Qc_is_canon; reflexivity).
  split; [split; [exact Hs | lia] |].
  apply (bollinger_flat_series isqrt_floor (Qc_of_Z 5) (Qc_of_Z 2) 4 3 Hs); lia.
Defined.
